(** * coldatoms.particles: ensembles, sources, sinks and the drift-kick push

    A shallow embedding of [src/coldatoms/particles.py].

    Numbers.  The source computes in [float64].  The embedding idealises a
    float as an exact rational ([Qc], canonical rationals with Leibniz
    equality): rounding, infinities and NaN are outside the model.  An
    operation whose [float64] result would be an infinity or a NaN (a
    division by zero) has no value in the model and is reported as an
    exception instead, see [py_div] and [np_div].  The time step [dt] and
    a mass [PyFloat m] are plain Python floats; a numpy scalar
    ([numpy.float64]) divides as an array does.

    Arrays.  A numpy array is its shape together with its elements in C
    order ([ndarray]), and it is laid out in memory in that order, as every
    array is that numpy makes here ([np.zeros], the result of an
    arithmetic operation, the copy of such an array).  An array with
    another memory layout (a transposed or Fortran-ordered array of two or
    more dimensions handed in by a caller, whose layout [np.copy] keeps)
    is outside the model; nothing below depends on the layout except
    [nd_resize].  Arrays that are reachable from several places (the
    arrays of an ensemble, an array owned by the caller) live in a store
    ([w_heap]) and are named by their location, so that in-place updates
    and aliasing are visible.

    Effects.  Methods and drivers are computations [M A] over a [world]:
    they return a value or raise a Python exception, and in both cases
    leave behind the world they reached. *)

From Stdlib Require Import QArith Qcanon ZArith Lia.
From stdpp Require Import base list gmap strings.

Local Open Scope Qc_scope.

(** ** Exceptions and outcomes *)

Inductive exn : Type :=
  | RuntimeError (msg : string)
  | ValueError
  | IndexError
  | ZeroDivisionError
  | FloatingPointError
  | SystemError.

Inductive outcome (A : Type) : Type :=
  | Ok (a : A)
  | Raise (e : exn).
Arguments Ok {A} a.
Arguments Raise {A} e.

Definition obind {A B} (o : outcome A) (k : A -> outcome B) : outcome B :=
  match o with
  | Ok a => k a
  | Raise e => Raise e
  end.

(** ** Scalars *)

Definition half : Qc := Q2Qc (1 # 2).
Definition two : Qc := Q2Qc 2.

(** [a / b] on two numpy [float64] scalars.  numpy yields an infinity or a
    NaN (and a warning) when [b] is zero; the model has no such value and
    raises [FloatingPointError], which is what numpy does under
    [np.errstate(divide='raise', invalid='raise')]. *)
Definition np_div (a b : Qc) : outcome Qc :=
  if decide (b = 0) then Raise FloatingPointError else Ok (a / b).

(** [a / b] on two Python floats: [ZeroDivisionError] when [b] is zero. *)
Definition py_div (a b : Qc) : outcome Qc :=
  if decide (b = 0) then Raise ZeroDivisionError else Ok (a / b).

(** ** numpy arrays

    An array is its shape and its elements in C (row-major) order; a
    well-formed array has as many elements as its shape says. *)

Definition size_of (s : list nat) : nat := foldr Nat.mul 1%nat s.

Record ndarray : Type := NdArray { nd_shape : list nat; nd_data : list Qc }.

Definition nd_wf (a : ndarray) : Prop :=
  length (nd_data a) = size_of (nd_shape a).

(** [np.zeros(shape)], [np.zeros_like(a)], [np.copy(a)] (as values: where
    the result is stored is the caller's business). *)
Definition np_zeros (s : list nat) : ndarray :=
  NdArray s (replicate (size_of s) 0).
Definition np_zeros_like (a : ndarray) : ndarray := np_zeros (nd_shape a).
Definition np_copy (a : ndarray) : ndarray :=
  NdArray (nd_shape a) (nd_data a).

(** [a.shape[0]]: a zero-dimensional array has an empty shape tuple, and
    indexing it raises [IndexError]. *)
Definition shape0 (a : ndarray) : outcome nat :=
  match nd_shape a with
  | n :: _ => Ok n
  | [] => Raise IndexError
  end.

(** [a[i]] for an integer [0 <= i]: the [i]-th sub-array along the leading
    axis; [IndexError] when [a] is zero-dimensional or [i] is out of
    range. *)
Definition nd_getitem (a : ndarray) (i : nat) : outcome ndarray :=
  match nd_shape a with
  | n :: s =>
      if decide (i < n)%nat
      then Ok (NdArray s (take (size_of s) (drop (i * size_of s) (nd_data a))))
      else Raise IndexError
  | [] => Raise IndexError
  end.

(** The in-place method [a.resize(new_shape)]: the elements are kept in
    the order in which they lie in memory, cut or padded with zeros to the
    size of the new shape.  For the arrays of the model that is the C
    order of [nd_data]; it holds for [x] and [v], which [np.zeros] makes,
    and for every one-dimensional array, and not for an array of two or
    more dimensions in Fortran order.  (numpy also refuses to resize an
    array that other arrays or variables refer to; reference counts are
    not modelled.) *)
Definition nd_resize (new_shape : list nat) (a : ndarray) : ndarray :=
  let n := size_of new_shape in
  NdArray new_shape
          (take n (nd_data a) ++ replicate (n - length (nd_data a)) 0).

(** *** Broadcasting

    Shapes are aligned at their last axis; an axis of length one, or a
    missing leading axis, is stretched. *)

(** The multi-index of the flat index [k] in shape [s], and back. *)
Fixpoint unravel (s : list nat) (k : nat) : list nat :=
  match s with
  | [] => []
  | _ :: s' => (k / size_of s')%nat :: unravel s' (k mod size_of s')
  end.

Fixpoint ravel (s idx : list nat) : nat :=
  match s, idx with
  | _ :: s', i :: idx' => (i * size_of s' + ravel s' idx')%nat
  | _, _ => 0%nat
  end.

(** [s] with leading axes of length one, up to [n] axes. *)
Definition pad_shape (n : nat) (s : list nat) : list nat :=
  replicate (n - length s) 1%nat ++ s.

(** Can an array of shape [s] be broadcast to shape [t]? *)
Definition broadcastable (s t : list nat) : bool :=
  bool_decide (length s <= length t)%nat &&
  forallb (fun p => (p.1 =? p.2)%nat || (p.1 =? 1)%nat)
          (zip (pad_shape (length t) s) t).

(** The flat index, in an array of shape [s], of the element that
    broadcasting to shape [t] puts at flat index [k]. *)
Definition bcast_index (s t : list nat) (k : nat) : nat :=
  let ps := pad_shape (length t) s in
  ravel ps (zip_with (fun d i => if (d =? 1)%nat then 0%nat else i)
                     ps (unravel t k)).

(** [np.broadcast_to(a, t)], as the list of the elements. *)
Definition broadcast_to (t : list nat) (a : ndarray) : outcome (list Qc) :=
  if broadcastable (nd_shape a) t
  then Ok (map (fun k => default 0 (nd_data a !! bcast_index (nd_shape a) t k))
               (seq 0 (size_of t)))
  else Raise ValueError.

(** The common shape of two operands. *)
Definition bcast_dim (p : nat * nat) : option nat :=
  if (p.1 =? p.2)%nat then Some p.1
  else if (p.1 =? 1)%nat then Some p.2
  else if (p.2 =? 1)%nat then Some p.1
  else None.

Definition broadcast_shapes (s1 s2 : list nat) : outcome (list nat) :=
  let n := length s1 `max` length s2 in
  match mapM bcast_dim (zip (pad_shape n s1) (pad_shape n s2)) with
  | Some t => Ok t
  | None => Raise ValueError
  end.

(** *** Arithmetic *)

(** [c * a] for a Python float [c]. *)
Definition nd_scale (c : Qc) (a : ndarray) : ndarray :=
  NdArray (nd_shape a) (map (Qcmult c) (nd_data a)).

(** The in-place [a += b]: [b] is broadcast to the shape of [a], which
    cannot change; [ValueError] otherwise. *)
Definition nd_iadd (a b : ndarray) : outcome ndarray :=
  obind (broadcast_to (nd_shape a) b) (fun d =>
  Ok (NdArray (nd_shape a) (zip_with Qcplus (nd_data a) d))).

(** [a * b]: a new array of the common shape. *)
Definition nd_mul (a b : ndarray) : outcome ndarray :=
  obind (broadcast_shapes (nd_shape a) (nd_shape b)) (fun t =>
  obind (broadcast_to t a) (fun da =>
  obind (broadcast_to t b) (fun db =>
  Ok (NdArray t (zip_with Qcmult da db))))).

(** [c / a] for a Python float [c]: element-wise; see [np_div] for a zero
    divisor. *)
Definition nd_rdiv (c : Qc) (a : ndarray) : outcome ndarray :=
  if decide (Forall (fun y => y <> 0) (nd_data a))
  then Ok (NdArray (nd_shape a) (map (fun y => c / y) (nd_data a)))
  else Raise FloatingPointError.

(** ** The store and the monad of computations *)

(** The state-and-exception monad: a computation returns a value or raises,
    and hands on the state it reached in both cases. *)
Definition StateExn (S A : Type) : Type := S -> outcome A * S.

#[global] Instance StateExn_ret {S} : MRet (StateExn S) :=
  fun A a s => (Ok a, s).

#[global] Instance StateExn_bind {S} : MBind (StateExn S) :=
  fun A B k m s =>
    match m s with
    | (Ok a, s') => k a s'
    | (Raise e, s') => (Raise e, s')
    end.

Definition raise {S A} (e : exn) : StateExn S A := fun s => (Raise e, s).
Definition lift {S A} (o : outcome A) : StateExn S A := fun s => (o, s).
Definition gets {S A} (f : S -> A) : StateExn S A := fun s => (Ok (f s), s).
Definition modify {S} (f : S -> S) : StateExn S unit := fun s => (Ok tt, f s).

Abbreviation loc := nat (only parsing).

(** The value of an ensemble property: a plain Python float (an object of
    type [float], not a [numpy.float64]), or (a reference to) an array. *)
Inductive pyobj : Type :=
  | PyFloat (q : Qc)
  | PyArray (l : loc).

Module Ensemble.

(** The attributes of an [Ensemble] object.  [x] and [v] refer to arrays
    in the store, and so do the values of [particle_properties]. *)
Record t : Type := mk {
  x : loc;
  v : loc;
  ensemble_properties : gmap string pyobj;
  particle_properties : gmap string loc
}.

Definition set_particle_properties (pp : gmap string loc) (e : t) : t :=
  mk (x e) (v e) (ensemble_properties e) pp.

End Ensemble.

(** The world of a call: the store of arrays, the ensemble the call is
    about, and the state [U] of whatever else the program holds (the
    sources and forces, which are code from outside this module). *)
Record world (U : Type) : Type := World {
  w_heap : list ndarray;
  w_ens : Ensemble.t;
  w_user : U
}.
Arguments World {U} _ _ _.
Arguments w_heap {U} _.
Arguments w_ens {U} _.
Arguments w_user {U} _.

Definition set_heap {U} (h : list ndarray) (w : world U) : world U :=
  World h (w_ens w) (w_user w).
Definition set_ens {U} (e : Ensemble.t) (w : world U) : world U :=
  World (w_heap w) e (w_user w).

Abbreviation M U A := (StateExn (world U) A).

(** Reading and updating an array through a reference.  A Python reference
    keeps its object alive, so the [SystemError] of a dangling location
    never shows in a run from a well-formed world; the store being a list,
    the model has to say what happens. *)
Definition load {U} (l : loc) : M U ndarray :=
  fun w => match w_heap w !! l with
           | Some a => (Ok a, w)
           | None => (Raise SystemError, w)
           end.
Definition store {U} (l : loc) (a : ndarray) : M U unit :=
  modify (fun w => set_heap (<[l := a]> (w_heap w)) w).
(** A new array object: a location no reference held before. *)
Definition alloc {U} (a : ndarray) : M U loc :=
  fun w => (Ok (length (w_heap w)), set_heap (w_heap w ++ [a]) w).

(** [ensemble.attr] *)
Definition attr {U A} (f : Ensemble.t -> A) : M U A :=
  gets (fun w => f (w_ens w)).

(** ** Ensemble *)

(** [Ensemble.__init__(self, num_ptcls=1)] *)
Definition init {U} (num_ptcls : Z) : M U unit :=
  if decide (num_ptcls < 0)%Z then raise ValueError
  else
    let shape := [Z.to_nat num_ptcls; 3%nat] in
    lx ← alloc (np_zeros shape);
    lv ← alloc (np_zeros shape);
    modify (set_ens (Ensemble.mk lx lv ∅ ∅)).

(** [Ensemble.get_num_ptcls]: [return self.x.shape[0]] *)
Definition get_num_ptcls {U} : M U nat :=
  lx ← attr Ensemble.x;
  ax ← load lx;
  lift (shape0 ax).

(** [Ensemble.set_particle_property(self, key, prop)], [prop] being the
    caller's array. *)
Definition set_particle_property {U} (key : string) (prop : loc) : M U unit :=
  p ← load prop;
  n ← lift (shape0 p);
  num_ptcls ← get_num_ptcls;
  if decide (n <> num_ptcls)
  then raise (RuntimeError
                "Size of property array does not match number of particles.")
  else
    l ← alloc (np_copy p);
    pp ← attr Ensemble.particle_properties;
    modify (fun w =>
      set_ens (Ensemble.set_particle_properties (<[key := l]> pp) (w_ens w)) w).

(** [a.resize(shape)] on the array at [l], for a [shape] list whose first
    entry is the Python integer [n] and whose other entries are [s]:
    numpy raises [ValueError] for a negative dimension. *)
Definition resize_at {U} (l : loc) (n : Z) (s : list nat) : M U unit :=
  if decide (n < 0)%Z then raise ValueError
  else
    a ← load l;
    store l (nd_resize (Z.to_nat n :: s) a).

(** The loop of [Ensemble.resize] over the keys of [particle_properties]:
<<
    shape = [self.particle_properties[particle_prop].shape]
    shape[0] = new_size
    self.particle_properties[particle_prop].resize(shape)
>>
    [shape] is a list of one element, the shape tuple, which the second
    line replaces by [new_size]: the array is resized to the
    one-dimensional shape [(new_size,)] whatever its shape was. *)
Fixpoint resize_props {U} (new_size : Z) (props : list (string * loc))
  : M U unit :=
  match props with
  | [] => mret tt
  | (_, l) :: rest => resize_at l new_size [];; resize_props new_size rest
  end.

(** [Ensemble.resize(self, new_size)]
<<
    shape = list(self.x.shape)
    shape[0] = new_size
    self.x.resize(shape)
    self.v.resize(shape)
    for particle_prop in self.particle_properties: ...
>>
    Assigning to [shape[0]] raises [IndexError] when the list is empty.
    A dictionary is visited in insertion order, which a [gmap] does not
    keep; the loop treats every key alike, so [map_to_list] is as good. *)
Definition resize {U} (new_size : Z) : M U unit :=
  lx ← attr Ensemble.x;
  ax ← load lx;
  match nd_shape ax with
  | [] => raise IndexError
  | _ :: s =>
      resize_at lx new_size s;;
      lv ← attr Ensemble.v;
      resize_at lv new_size s;;
      pp ← attr Ensemble.particle_properties;
      resize_props new_size (map_to_list pp)
  end.

(** ** Sources and the injection driver *)

Module Source.

(** A source object: its two methods, acting on the world.  The
    [ensemble] argument of [produce_ptcls] is the ensemble of the
    world. *)
Record t (U : Type) : Type := mk {
  num_ptcls_produced : Qc -> M U Z;
  produce_ptcls : Qc -> Z -> Z -> M U unit
}.
Arguments mk {U} _ _.
Arguments num_ptcls_produced {U} _ _.
Arguments produce_ptcls {U} _ _ _ _.

(** The base class: [return 0] and [pass]. *)
Definition base {U} : t U := mk (fun _ => mret 0%Z) (fun _ _ _ => mret tt).

End Source.

(** What [produce_ptcls] asks of the objects it is given, in the order it
    asks: the [i]-th source of the list answered [n] to
    [num_ptcls_produced(dt)]; the ensemble was told to [resize]; the
    [i]-th source was told to [produce_ptcls(dt, start, stop, ensemble)]. *)
Inductive event : Type :=
  | CallNum (i : nat) (dt : Qc) (n : Z)
  | CallResize (new_size : Z)
  | CallProduce (i : nat) (dt : Qc) (start stop : Z).

(** The driver runs in the world extended with the record of its calls;
    the code it calls runs in the world alone. *)
Abbreviation MT U A := (StateExn (world U * list event) A).

Definition run {U A} (m : M U A) : MT U A :=
  fun wl => let (r, w') := m wl.1 in (r, (w', wl.2)).
Definition emit {U} (ev : event) : MT U unit :=
  modify (fun wl => (wl.1, wl.2 ++ [ev])).

(** The first loop of [produce_ptcls], from the [i]-th source on:
<<
    for s in sources:
        num_new_ptcls.append(s.num_ptcls_produced(dt))
        tot_new_ptcls += num_new_ptcls[-1]
>> *)
Fixpoint query_sources {U} (dt : Qc) (i : nat) (sources : list (Source.t U))
    (num_new_ptcls : list Z) (tot_new_ptcls : Z) : MT U (list Z * Z) :=
  match sources with
  | [] => mret (num_new_ptcls, tot_new_ptcls)
  | s :: rest =>
      n ← run (Source.num_ptcls_produced s dt);
      emit (CallNum i dt n);;
      query_sources dt (S i) rest (num_new_ptcls ++ [n]) (tot_new_ptcls + n)%Z
  end.

(** The second loop, from the [i]-th source on:
<<
    for i, s in enumerate(sources):
        s.produce_ptcls(dt, start, start + num_new_ptcls[i], ensemble)
        start += num_new_ptcls[i]
>> *)
Fixpoint insert_ptcls {U} (dt : Qc) (i : nat) (sources : list (Source.t U))
    (num_new_ptcls : list Z) (start : Z) : MT U unit :=
  match sources with
  | [] => mret tt
  | s :: rest =>
      n ← match num_new_ptcls !! i with
          | Some n => mret n
          | None => raise IndexError
          end;
      emit (CallProduce i dt start (start + n)%Z);;
      run (Source.produce_ptcls s dt start (start + n)%Z);;
      insert_ptcls dt (S i) rest num_new_ptcls (start + n)%Z
  end.

(** [produce_ptcls(dt, ensemble, sources=[])] *)
Definition produce_ptcls {U} (dt : Qc) (sources : list (Source.t U))
  : MT U unit :=
  '(num_new_ptcls, tot_new_ptcls) ← query_sources dt 0 sources [] 0%Z;
  start ← run get_num_ptcls;
  num_ptcls ← run get_num_ptcls;
  let new_size := (Z.of_nat num_ptcls + tot_new_ptcls)%Z in
  emit (CallResize new_size);;
  run (resize new_size);;
  insert_ptcls dt 0 sources num_new_ptcls (Z.of_nat start).

(** ** The integrator *)

(** A force: a callable that is given the ensemble and returns an array. *)
Abbreviation force U := (M U ndarray).

(** [ensemble.attr += rhs], on the array that [attr] refers to. *)
Definition iadd_at {U} (l : loc) (rhs : ndarray) : M U unit :=
  a ← load l;
  r ← lift (nd_iadd a rhs);
  store l r.

(** [for force in forces: f += force(ensemble)] *)
Fixpoint accumulate {U} (f : ndarray) (forces : list (force U))
  : M U ndarray :=
  match forces with
  | [] => mret f
  | force :: rest =>
      r ← force;
      f' ← lift (nd_iadd f r);
      accumulate f' rest
  end.

(** [(dt / m) * f], for a plain Python float [dt].  With a Python float
    [m] the quotient is Python's, which raises [ZeroDivisionError] at
    [m = 0.0]; with an array [m] it is numpy's.  (A [numpy.float64] in the
    place of either float makes the quotient numpy's, too: an infinity or
    a NaN and a warning at zero.  The two agree wherever [m] is not
    zero.) *)
Definition kick_of {U} (dt : Qc) (m : pyobj) (f : ndarray) : M U ndarray :=
  match m with
  | PyFloat q =>
      c ← lift (py_div dt q);
      mret (nd_scale c f)
  | PyArray l =>
      am ← load l;
      d ← lift (nd_rdiv dt am);
      lift (nd_mul d f)
  end.

(** [drift_kick(dt, ensemble, forces=[])] *)
Definition drift_kick {U} (dt : Qc) (forces : list (force U)) : M U unit :=
  if decide (length forces = 0%nat) then
    lx ← attr Ensemble.x;
    lv ← attr Ensemble.v;
    av ← load lv;
    iadd_at lx (nd_scale dt av)
  else
    lx ← attr Ensemble.x;
    lv ← attr Ensemble.v;
    av ← load lv;
    iadd_at lx (nd_scale (half * dt) av);;
    lv ← attr Ensemble.v;
    av ← load lv;
    f ← accumulate (np_zeros_like av) forces;
    ep ← attr Ensemble.ensemble_properties;
    pp ← attr Ensemble.particle_properties;
    m ← match ep !! "mass" with
        | Some m => mret m
        | None =>
            match pp !! "mass" with
            | Some l => mret (PyArray l)
            | None =>
                raise (RuntimeError
                  "To accelerate particles we need a mass ensemble or particle property")
            end
        end;
    lv ← attr Ensemble.v;
    k ← kick_of dt m f;
    iadd_at lv k;;
    lx ← attr Ensemble.x;
    lv ← attr Ensemble.v;
    av ← load lv;
    iadd_at lx (nd_scale (half * dt) av).

(** ** One- and two-dimensional arrays passed by value

    The sink methods only read their arguments and allocate their result,
    so they are embedded on values: a one-dimensional array is the list of
    its entries, a two-dimensional array the list of its rows. *)

Abbreviation vec := (list Qc).
Abbreviation mat := (list (list Qc)).

(** [a.dot(b)] for one-dimensional [a] and [b]: the sum of the products,
    and numpy raises [ValueError] ("shapes not aligned") unless the
    lengths agree. *)
Definition dotp (a b : vec) : Qc := foldr Qcplus 0 (zip_with Qcmult a b).

Definition dot (a b : vec) : outcome Qc :=
  if decide (length a = length b) then Ok (dotp a b) else Raise ValueError.

(** [a - b] for one-dimensional [a] and [b], with numpy's broadcasting:
    equal lengths, or one of the two of length one. *)
Definition vsub (a b : vec) : outcome vec :=
  if decide (length a = length b) then Ok (zip_with Qcminus a b)
  else match a, b with
       | [a0], _ => Ok (map (fun y => a0 - y) b)
       | _, [b0] => Ok (map (fun x => x - b0) a)
       | _, _ => Raise ValueError
       end.

(** [v[i]] on a two-dimensional array: [IndexError] out of range. *)
Definition getrow (v : mat) (i : nat) : outcome vec :=
  match v !! i with
  | Some r => Ok r
  | None => Raise IndexError
  end.

(** ** Sinks *)

Module Sink.

(** [Sink.find_absorption_time]:
    [return np.full(x.shape[0], 2.0 * dt)]. *)
Definition find_absorption_time (x v : mat) (dt : Qc) : vec :=
  replicate (length x) (two * dt).

End Sink.

Module SinkPlane.

Record t : Type := mk { point : vec; normal : vec }.

(** The body of the loop of [SinkPlane.find_absorption_time] for one
    index [i]: the value stored in [taus[i]]. *)
Definition tau (self : t) (x v : mat) (dt : Qc) (i : nat) : outcome Qc :=
  obind (getrow v i) (fun vi =>
  obind (dot (normal self) vi) (fun normal_velocity =>
  if decide (normal_velocity = 0) then Ok (two * dt)
  else
    obind (getrow x i) (fun xi =>
    obind (vsub (point self) xi) (fun d =>
    obind (dot (normal self) d) (fun num =>
    np_div num normal_velocity))))).

(** [for i in range(n): taus[i] = ...] started at index [i]: the entries
    [i], [i+1], ..., [i+n-1], or the first exception. *)
Fixpoint loop (self : t) (x v : mat) (dt : Qc) (i n : nat) : outcome vec :=
  match n with
  | O => Ok []
  | S n' =>
      obind (tau self x v dt i) (fun t0 =>
      obind (loop self x v dt (S i) n') (fun ts => Ok (t0 :: ts)))
  end.

(** [SinkPlane.find_absorption_time]: [taus = np.zeros(x.shape[0])],
    every entry overwritten by the loop, [return taus]. *)
Definition find_absorption_time (self : t) (x v : mat) (dt : Qc)
  : outcome vec :=
  loop self x v dt 0 (length x).

End SinkPlane.

(** The plane of a [SinkPlane]: the points [y] with
    [normal . (y - point) = 0]; and a free flight from [xi] with velocity
    [vi] meeting it at a time in [[0, dt)]. *)
Definition on_plane (self : SinkPlane.t) (y : vec) : Prop :=
  dotp (SinkPlane.normal self) (zip_with Qcminus y (SinkPlane.point self)) = 0.

Definition crosses_within (self : SinkPlane.t) (xi vi : vec) (dt : Qc) : Prop :=
  exists t : Qc,
    0 <= t /\ t < dt /\
    on_plane self (zip_with Qcplus xi (map (Qcmult t) vi)).

(** The entry that the loop body computes, when the rows have the length
    of the plane's vectors. *)
Definition tau_spec (self : SinkPlane.t) (xi vi : vec) (dt : Qc) : Qc :=
  if decide (dotp (SinkPlane.normal self) vi = 0) then two * dt
  else dotp (SinkPlane.normal self)
            (zip_with Qcminus (SinkPlane.point self) xi)
       / dotp (SinkPlane.normal self) vi.

(** ** Reading a world *)

(** The arrays an ensemble refers to, as the store has them. *)
Definition positions {U} (w : world U) : option ndarray :=
  w_heap w !! Ensemble.x (w_ens w).
Definition velocities {U} (w : world U) : option ndarray :=
  w_heap w !! Ensemble.v (w_ens w).
Definition particle_property {U} (w : world U) (key : string)
  : option ndarray :=
  match Ensemble.particle_properties (w_ens w) !! key with
  | Some l => w_heap w !! l
  | None => None
  end.

(** An ensemble of [N] particles as [__init__] makes it and the methods
    keep it: [x] and [v] are two arrays of shape [(N, 3)], and the
    particle properties are arrays of their own. *)
Definition wf_ensemble {U} (w : world U) (N : nat) : Prop :=
  Ensemble.x (w_ens w) <> Ensemble.v (w_ens w) /\
  (exists ax, positions w = Some ax /\ nd_shape ax = [N; 3%nat] /\ nd_wf ax) /\
  (exists av, velocities w = Some av /\ nd_shape av = [N; 3%nat] /\ nd_wf av) /\
  (forall key l, Ensemble.particle_properties (w_ens w) !! key = Some l ->
                 l <> Ensemble.x (w_ens w) /\ l <> Ensemble.v (w_ens w) /\
                 is_Some (w_heap w !! l)).

(** ** Sample data *)

Definition qz (z : Z) : Qc := Q2Qc (inject_Z z).

(** Two particles, at (1,2,3) and (4,5,6), with velocities (1,0,0) and
    (0,2,0); no properties. *)
Definition demo_x : ndarray := NdArray [2; 3]%nat (map qz [1; 2; 3; 4; 5; 6]%Z).
Definition demo_v : ndarray := NdArray [2; 3]%nat (map qz [1; 0; 0; 0; 2; 0]%Z).
Definition demo_world : world unit :=
  World [demo_x; demo_v] (Ensemble.mk 0 1 ∅ ∅) tt.

(** The same with a particle property ["p"] of shape [(2, 2)]. *)
Definition demo_p : ndarray := NdArray [2; 2]%nat (map qz [1; 2; 3; 4]%Z).
Definition demo_world_p : world unit :=
  World [demo_x; demo_v; demo_p] (Ensemble.mk 0 1 ∅ {[ "p" := 2%nat ]}) tt.

(** ** The five steps of the integrator

    Half-drift; total force; mass resolution (the ensemble property, else
    the particle property, else the missing-mass error); kick;
    half-drift.  [drift_kick] above follows the source statement by
    statement.  [drift_kick_in_steps] is the same code with its statements
    grouped into the five steps, which is how the proofs walk through a
    call; it says nothing that [drift_kick] does not.  What the
    specification asks of the lookup is [spec_resolve_mass], and what it
    asks of the kick is [spec_kicked]. *)

Definition MissingMassError : exn :=
  RuntimeError
    "To accelerate particles we need a mass ensemble or particle property".

Definition spec_resolve_mass (e : Ensemble.t) : outcome pyobj :=
  match Ensemble.ensemble_properties e !! "mass" with
  | Some m => Ok m
  | None =>
      match Ensemble.particle_properties e !! "mass" with
      | Some l => Ok (PyArray l)
      | None => Raise MissingMassError
      end
  end.


Definition half_drift {U} (dt : Qc) : M U unit :=
  lx ← attr Ensemble.x;
  lv ← attr Ensemble.v;
  av ← load lv;
  iadd_at lx (nd_scale (half * dt) av).

Definition total_force {U} (forces : list (force U)) : M U ndarray :=
  lv ← attr Ensemble.v;
  av ← load lv;
  accumulate (np_zeros_like av) forces.

Definition kick {U} (dt : Qc) (m : pyobj) (f : ndarray) : M U unit :=
  lv ← attr Ensemble.v;
  k ← kick_of dt m f;
  iadd_at lv k.

Definition drift_kick_in_steps {U} (dt : Qc) (forces : list (force U)) : M U unit :=
  half_drift dt;;
  f ← total_force forces;
  e ← gets w_ens;
  m ← lift (spec_resolve_mass e);
  kick dt m f;;
  half_drift dt.

(** The world after a half-drift of a well-formed ensemble. *)
Definition half_drifted {U} (dt : Qc) (ax av : ndarray) (w : world U)
  : world U :=
  set_heap
    (<[Ensemble.x (w_ens w) :=
         NdArray (nd_shape ax)
           (zip_with Qcplus (nd_data ax)
                     (map (Qcmult (half * dt)) (nd_data av)))]> (w_heap w))
    w.

(** ** Vectors, for the statements about rows *)

Definition vadd (a b : vec) : vec := zip_with Qcplus a b.
Definition vscale (c : Qc) (a : vec) : vec := map (Qcmult c) a.

(** The array of [N] rows, each of them [F]. *)
Definition uniform_rows (N : nat) (F : vec) : ndarray :=
  NdArray [N; length F] (concat (replicate N F)).

(** A force that returns [F] for every particle and changes nothing. *)
Definition uniform_force {U} (F : vec) : force U :=
  n ← get_num_ptcls;
  mret (uniform_rows n F).

(** Two particles with the ensemble property [mass = 2.0] and the
    particle property [mass = [5.0, 5.0]]. *)
Definition demo_mass : ndarray := NdArray [2%nat] (map qz [5; 5]%Z).
Definition demo_world_mass : world unit :=
  World [demo_x; demo_v; demo_mass]
        (Ensemble.mk 0 1 {[ "mass" := PyFloat (qz 2) ]} {[ "mass" := 2%nat ]})
        tt.

(** The same without the ensemble property: the mass is per particle. *)
Definition demo_world_pmass : world unit :=
  World [demo_x; demo_v; demo_mass]
        (Ensemble.mk 0 1 ∅ {[ "mass" := 2%nat ]}) tt.

(** The [i]-th row of the elements of an array of shape [(N, 3)]. *)
Definition row (i : nat) (d : list Qc) : vec := take 3 (drop (i * 3) d).

(** Equality of two lists of rationals, decided on their values. *)
Definition vec_eqb (a b : vec) : bool :=
  bool_decide (length a = length b) &&
  forallb (fun p => Qeq_bool (this p.1) (this p.2)) (zip a b).

(** ** The calls of the injection driver, as the specification lists them *)

Definition sum_Z (l : list Z) : Z := foldr Z.add 0%Z l.

(** Step 1 without the record of calls: every source of the list is asked
    once, in list order, and the answers are kept. *)
Fixpoint ask_all {U} (dt : Qc) (sources : list (Source.t U)) : M U (list Z) :=
  match sources with
  | [] => mret []
  | s :: rest =>
      n ← Source.num_ptcls_produced s dt;
      ns ← ask_all dt rest;
      mret (n :: ns)
  end.

(** Step 3 without the record of calls: every source of the list is told,
    in list order, to produce into the range that its count of step 1 cuts
    off at the cursor, and the cursor moves on by that count. *)
Fixpoint produce_all {U} (dt : Qc) (cursor : Z) (sources : list (Source.t U))
    (counts : list Z) : M U unit :=
  match sources, counts with
  | s :: rest, n :: ns =>
      Source.produce_ptcls s dt cursor (cursor + n)%Z;;
      produce_all dt (cursor + n)%Z rest ns
  | _, _ => mret tt
  end.

(** The calls of step 1 and of step 3 for the answers [counts], the first
    of them being that of source number [i]; [cursor] is where the next
    source inserts. *)
Fixpoint num_events (dt : Qc) (i : nat) (counts : list Z) : list event :=
  match counts with
  | [] => []
  | n :: rest => CallNum i dt n :: num_events dt (S i) rest
  end.

Fixpoint produce_events (dt : Qc) (i : nat) (cursor : Z) (counts : list Z)
  : list event :=
  match counts with
  | [] => []
  | n :: rest =>
      CallProduce i dt cursor (cursor + n)
      :: produce_events dt (S i) (cursor + n)%Z rest
  end.

(** The index range [[start, stop)] of source number [i]. *)
Definition range_start (old_N : Z) (counts : list Z) (i : nat) : Z :=
  (old_N + sum_Z (take i counts))%Z.
Definition range_stop (old_N : Z) (counts : list Z) (i : nat) : Z :=
  (old_N + sum_Z (take (S i) counts))%Z.

(** The world of the sample sources: two particles, and the number of
    questions that the sources have been asked so far. *)
Definition demo_world_src : world nat :=
  World [demo_x; demo_v] (Ensemble.mk 0 1 ∅ ∅) 0%nat.

(** A source that writes its particles, and whose answer changes from one
    question to the next: asked for a count it answers 3, then 5, then 7,
    ... (the state of the program counts the questions, whichever source
    is asked).  Told to produce into
    [[start, stop)] it writes [mark] into the three components of the rows
    [start <= i < stop] of [x]; a range that is not within the ensemble
    makes it raise [IndexError]. *)
Definition nd_fill_rows (start stop : nat) (c : Qc) (a : ndarray) : ndarray :=
  let r := size_of (tail (nd_shape a)) in
  NdArray (nd_shape a)
          (imap (fun k y => if decide (start * r <= k < stop * r)%nat
                            then c else y)
                (nd_data a)).

Definition demo_writer (mark : Qc) : Source.t nat :=
  Source.mk
    (fun _ w =>
       (Ok (3 + 2 * Z.of_nat (w_user w))%Z,
        World (w_heap w) (w_ens w) (S (w_user w))))
    (fun _ start stop =>
       n ← get_num_ptcls;
       if decide (0 <= start /\ start <= stop /\ stop <= Z.of_nat n)%Z
       then
         lx ← attr Ensemble.x;
         ax ← load lx;
         store lx (nd_fill_rows (Z.to_nat start) (Z.to_nat stop) mark ax)
       else raise IndexError).

(** What step 3 needs of the sources, and no more: told in turn to produce
    into the range granted to it, each source returns and leaves an
    ensemble of [size] particles.  Nothing is asked of a source for any
    other range, or in any other world. *)
Fixpoint grants_kept {U} (dt : Qc) (cursor : Z) (sources : list (Source.t U))
    (counts : list Z) (size : nat) (w : world U) : Prop :=
  match sources, counts with
  | s :: rest, n :: ns =>
      exists w',
        Source.produce_ptcls s dt cursor (cursor + n)%Z w = (Ok tt, w') /\
        wf_ensemble w' size /\
        grants_kept dt (cursor + n)%Z rest ns size w'
  | [], [] => True
  | _, _ => False
  end.

(** ** More sample data *)

(** A source that breaks the contract: it answers -5. *)
Definition demo_source_neg : Source.t unit :=
  Source.mk (fun _ => mret (-5)%Z) (fun _ _ _ => mret tt).

(** Two particles whose ensemble mass is zero. *)
Definition demo_world_mass0 : world unit :=
  World [demo_x; demo_v] (Ensemble.mk 0 1 {[ "mass" := PyFloat 0 ]} ∅) tt.

(** Two particles with a per-particle mass of shape [(2, 1)]. *)
Definition demo_mass_col : ndarray := NdArray [2; 1]%nat (map qz [2; 4]%Z).
Definition demo_world_pmass_col : world unit :=
  World [demo_x; demo_v; demo_mass_col]
        (Ensemble.mk 0 1 ∅ {[ "mass" := 2%nat ]}) tt.

(** * Properties *)

(** ** Arithmetic of the scalars *)

Lemma two_times (q : Qc) : two * q = q + q.
Proof.
  replace two with (1 + 1) by (apply Qc_is_canon; reflexivity). ring.
Qed.

Lemma lt_double (q : Qc) : 0 < q -> q < two * q.
Proof.
  intros H. rewrite two_times.
  rewrite <- (Qcplus_0_r q) at 1.
  by apply Qcplus_lt_mono_l.
Qed.

Lemma half_twice : half + half = 1.
Proof. apply Qc_is_canon. reflexivity. Qed.

(** ** Arrays: resizing *)

Lemma size_of_cons (n : nat) (s : list nat) :
  size_of (n :: s) = (n * size_of s)%nat.
Proof. reflexivity. Qed.

Lemma nd_resize_wf (s : list nat) (a : ndarray) : nd_wf (nd_resize s a).
Proof.
  unfold nd_wf, nd_resize. simpl.
  rewrite length_app, length_take, length_replicate. lia.
Qed.

Lemma nd_resize_shape (s : list nat) (a : ndarray) :
  nd_shape (nd_resize s a) = s.
Proof. reflexivity. Qed.

Lemma nd_resize_same (a : ndarray) : nd_wf a -> nd_resize (nd_shape a) a = a.
Proof.
  unfold nd_wf, nd_resize. intros H. destruct a as [s d]. simpl in *.
  rewrite <- H, Nat.sub_diag, firstn_all. simpl. by rewrite app_nil_r.
Qed.

Lemma nd_resize_idem (s : list nat) (a : ndarray) :
  nd_resize s (nd_resize s a) = nd_resize s a.
Proof. apply (nd_resize_same (nd_resize s a)), nd_resize_wf. Qed.

(** The elements of a resized array: the old ones, then zeros. *)
Lemma nd_resize_lookup_old (s : list nat) (a : ndarray) (k : nat) :
  (k < size_of s)%nat -> (k < length (nd_data a))%nat ->
  nd_data (nd_resize s a) !! k = nd_data a !! k.
Proof.
  intros H1 H2. unfold nd_resize. simpl.
  rewrite lookup_app_l by (rewrite length_take; lia).
  rewrite lookup_take. by rewrite decide_True.
Qed.

Lemma nd_resize_lookup_new (s : list nat) (a : ndarray) (k : nat) :
  (k < size_of s)%nat -> (length (nd_data a) <= k)%nat ->
  nd_data (nd_resize s a) !! k = Some 0.
Proof.
  intros H1 H2. unfold nd_resize. simpl.
  rewrite lookup_app_r by (rewrite length_take; lia).
  apply lookup_replicate_2. rewrite length_take. lia.
Qed.

Lemma lookup_row (d : list Qc) (r i j : nat) :
  take r (drop (i * r) d) !! j =
  if decide (j < r)%nat then d !! (i * r + j)%nat else None.
Proof.
  rewrite lookup_take. destruct (decide (j < r)%nat); [|done].
  by rewrite lookup_drop.
Qed.

(** Rows below both the old and the new length are kept by a resize that
    changes the leading length only. *)
Lemma getitem_resize_old (a : ndarray) (N n i : nat) (s : list nat) :
  nd_shape a = N :: s -> nd_wf a -> (i < N)%nat -> (i < n)%nat ->
  nd_getitem (nd_resize (n :: s) a) i = nd_getitem a i.
Proof.
  intros Hs Hwf HN Hn. unfold nd_getitem. rewrite nd_resize_shape, Hs.
  rewrite !decide_True by done. do 2 f_equal.
  unfold nd_wf in Hwf. rewrite Hs, size_of_cons in Hwf.
  apply list_eq. intros j. rewrite !lookup_row.
  destruct (decide (j < size_of s)%nat); [|done].
  apply nd_resize_lookup_old; rewrite ?size_of_cons; nia.
Qed.

(** Rows from the old length on are zero. *)
Lemma getitem_resize_new (a : ndarray) (N n i : nat) (s : list nat) :
  nd_shape a = N :: s -> nd_wf a -> (N <= i)%nat -> (i < n)%nat ->
  nd_getitem (nd_resize (n :: s) a) i = Ok (np_zeros s).
Proof.
  intros Hs Hwf HN Hn. unfold nd_getitem. rewrite nd_resize_shape.
  rewrite decide_True by done. unfold np_zeros. do 2 f_equal.
  unfold nd_wf in Hwf. rewrite Hs, size_of_cons in Hwf.
  apply list_eq. intros j. rewrite lookup_row.
  destruct (decide (j < size_of s)%nat).
  - rewrite lookup_replicate_2 by done.
    apply nd_resize_lookup_new; rewrite ?size_of_cons; nia.
  - symmetry. apply lookup_ge_None_2. rewrite length_replicate. lia.
Qed.

Lemma np_zeros_wf (s : list nat) : nd_wf (np_zeros s).
Proof. unfold nd_wf, np_zeros. simpl. apply length_replicate. Qed.

Lemma nd_scale_wf (c : Qc) (a : ndarray) : nd_wf a -> nd_wf (nd_scale c a).
Proof. unfold nd_wf, nd_scale. simpl. by rewrite length_map. Qed.

Lemma np_copy_eq (a : ndarray) : np_copy a = a.
Proof. by destruct a. Qed.

(** ** Arrays: broadcasting an array to its own shape *)

Lemma pad_shape_same (s : list nat) : pad_shape (length s) s = s.
Proof. unfold pad_shape. by rewrite Nat.sub_diag. Qed.

Lemma broadcastable_refl (s : list nat) : broadcastable s s = true.
Proof.
  unfold broadcastable. rewrite pad_shape_same.
  rewrite bool_decide_eq_true_2 by done. simpl.
  induction s as [|n s IH]; [done|]. simpl. by rewrite Nat.eqb_refl.
Qed.

Lemma unravel_bound (s : list nat) (k : nat) :
  (k < size_of s)%nat -> Forall2 (fun d i => (i < d)%nat) s (unravel s k).
Proof.
  revert k. induction s as [|n s IH]; intros k Hk; simpl; [constructor|].
  rewrite size_of_cons in Hk.
  assert (size_of s <> 0)%nat as Hne by (intros E; rewrite E in Hk; lia).
  constructor.
  - apply Nat.Div0.div_lt_upper_bound. lia.
  - apply IH. by apply Nat.mod_upper_bound.
Qed.

Lemma ravel_unravel (s : list nat) (k : nat) :
  (k < size_of s)%nat -> ravel s (unravel s k) = k.
Proof.
  revert k. induction s as [|n s IH]; intros k Hk; simpl.
  - simpl in Hk. lia.
  - rewrite size_of_cons in Hk.
    assert (size_of s <> 0)%nat as Hne by (intros E; rewrite E in Hk; lia).
    rewrite IH by (by apply Nat.mod_upper_bound).
    pose proof (Nat.div_mod_eq k (size_of s)). lia.
Qed.

Lemma clamp_in_bounds (s idx : list nat) :
  Forall2 (fun d i => (i < d)%nat) s idx ->
  zip_with (fun d i => if (d =? 1)%nat then 0%nat else i) s idx = idx.
Proof.
  induction 1 as [|d i s idx Hi _ IH]; [done|]. simpl. rewrite IH. f_equal.
  destruct (Nat.eqb_spec d 1); lia.
Qed.

Lemma bcast_index_same (s : list nat) (k : nat) :
  (k < size_of s)%nat -> bcast_index s s k = k.
Proof.
  intros Hk. unfold bcast_index. rewrite pad_shape_same.
  rewrite clamp_in_bounds by (by apply unravel_bound).
  by apply ravel_unravel.
Qed.

Lemma broadcast_to_same (a : ndarray) :
  nd_wf a -> broadcast_to (nd_shape a) a = Ok (nd_data a).
Proof.
  intros Hwf. unfold broadcast_to. rewrite broadcastable_refl. f_equal.
  apply list_eq. intros i. rewrite list_lookup_fmap.
  destruct (decide (i < size_of (nd_shape a))%nat) as [Hi|Hi].
  - rewrite (proj2 (lookup_seq 0 _ i i)) by done. simpl.
    rewrite bcast_index_same by done.
    destruct (lookup_lt_is_Some_2 (nd_data a) i) as [q ->]; [|done].
    by rewrite Hwf.
  - rewrite !lookup_ge_None_2; [done | by rewrite Hwf; lia |].
    rewrite length_seq. lia.
Qed.

(** [a += b] for two arrays of one shape is element-wise. *)
Lemma nd_iadd_same_shape (a b : ndarray) :
  nd_shape b = nd_shape a -> nd_wf b ->
  nd_iadd a b = Ok (NdArray (nd_shape a) (zip_with Qcplus (nd_data a) (nd_data b))).
Proof.
  intros Hs Hwf. unfold nd_iadd. rewrite <- Hs at 1.
  by rewrite broadcast_to_same.
Qed.

(** ** Arrays: the rows of an array of shape (N, 3) *)

Lemma getitem_row (N i : nat) (d : list Qc) :
  (i < N)%nat -> nd_getitem (NdArray [N; 3%nat] d) i = Ok (NdArray [3%nat] (row i d)).
Proof. intros H. unfold nd_getitem. simpl. by rewrite decide_True. Qed.

Lemma row_zip_with (f : Qc -> Qc -> Qc) (i : nat) (a b : list Qc) :
  row i (zip_with f a b) = zip_with f (row i a) (row i b).
Proof. unfold row. by rewrite zip_with_drop, zip_with_take. Qed.

Lemma row_map (f : Qc -> Qc) (i : nat) (a : list Qc) :
  row i (map f a) = map f (row i a).
Proof. unfold row. by rewrite <- (fmap_drop f), <- (fmap_take f). Qed.

Lemma row_zeros (N i : nat) :
  (i < N)%nat -> row i (replicate (N * 3) 0) = replicate 3 0.
Proof.
  intros H. unfold row. rewrite drop_replicate, take_replicate.
  f_equal. lia.
Qed.

Lemma length_concat_replicate (N : nat) (F : vec) :
  length (concat (replicate N F)) = (N * length F)%nat.
Proof.
  induction N as [|N IH]; [done|]. simpl. rewrite length_app, IH. lia.
Qed.

Lemma uniform_rows_wf (N : nat) (F : vec) : nd_wf (uniform_rows N F).
Proof.
  unfold nd_wf, uniform_rows. simpl. rewrite length_concat_replicate. lia.
Qed.

Lemma row_uniform (N i : nat) (F : vec) :
  length F = 3%nat -> (i < N)%nat -> row i (concat (replicate N F)) = F.
Proof.
  intros HF. unfold row. rewrite <- HF. clear HF. revert i.
  induction N as [|N IH]; intros i Hi; [lia|].
  change (concat (replicate (S N) F)) with (F ++ concat (replicate N F)).
  destruct i as [|i].
  - rewrite Nat.mul_0_l, drop_0. by rewrite take_app_length.
  - replace (S i * length F)%nat with (length F + i * length F)%nat by lia.
    rewrite drop_app_add. apply IH. lia.
Qed.

Lemma length_row (N i : nat) (d : list Qc) :
  length d = (N * 3)%nat -> (i < N)%nat -> length (row i d) = 3%nat.
Proof.
  intros Hd Hi. unfold row. rewrite length_take, length_drop. lia.
Qed.

Lemma vec3 (a : vec) :
  length a = 3%nat -> exists a0 a1 a2, a = [a0; a1; a2].
Proof.
  destruct a as [|a0 [|a1 [|a2 [|]]]]; try discriminate. eauto.
Qed.

Lemma vec_eqb_eq (a b : vec) : vec_eqb a b = true -> a = b.
Proof.
  unfold vec_eqb. intros H. apply andb_true_iff in H as [HL H].
  apply bool_decide_eq_true in HL. revert b HL H.
  induction a as [|p a IH]; intros [|q b] HL H; try discriminate; [done|].
  simpl in H. apply andb_true_iff in H as [Hpq H].
  f_equal; [|apply IH; [simpl in HL; lia | done]].
  apply Qc_is_canon. by apply Qeq_bool_iff.
Qed.

(** ** Running computations *)

Lemma bind_ok {S A B} (m : StateExn S A) (k : A -> StateExn S B) s a s' :
  m s = (Ok a, s') -> (m ≫= k) s = k a s'.
Proof. intros H. unfold mbind, StateExn_bind. by rewrite H. Qed.

Lemma bind_inv {S A B} (m : StateExn S A) (k : A -> StateExn S B) s b s' :
  (m ≫= k) s = (Ok b, s') ->
  exists a s1, m s = (Ok a, s1) /\ k a s1 = (Ok b, s').
Proof.
  unfold mbind, StateExn_bind. destruct (m s) as [[a|e] s1]; [eauto|].
  discriminate.
Qed.

Lemma bind_assoc {S A B C} (m : StateExn S A) (f : A -> StateExn S B)
    (g : B -> StateExn S C) s :
  ((m ≫= f) ≫= g) s = (m ≫= (fun a => f a ≫= g)) s.
Proof. unfold mbind, StateExn_bind. by destruct (m s) as [[a|e] s']. Qed.

Lemma bind_ext {S A B} (m : StateExn S A) (k1 k2 : A -> StateExn S B) s :
  (forall a s', k1 a s' = k2 a s') -> (m ≫= k1) s = (m ≫= k2) s.
Proof.
  intros H. unfold mbind, StateExn_bind. destruct (m s) as [[a|e] s']; [|done].
  apply H.
Qed.

Lemma gets_bind {S A B} (f : S -> A) (k : A -> StateExn S B) s :
  (gets f ≫= k) s = k (f s) s.
Proof. reflexivity. Qed.

Lemma ret_bind {S A B} (a : A) (k : A -> StateExn S B) s :
  (mret a ≫= k) s = k a s.
Proof. reflexivity. Qed.

Lemma lift_bind {S A B} (o : outcome A) (k : A -> StateExn S B) s :
  (lift o ≫= k) s = match o with Ok a => k a s | Raise e => (Raise e, s) end.
Proof. by destruct o. Qed.

Lemma load_ok {U} (w : world U) (l : nat) (a : ndarray) :
  w_heap w !! l = Some a -> load l w = (Ok a, w).
Proof. intros H. unfold load. by rewrite H. Qed.

Lemma iadd_at_ok {U} (w : world U) (l : nat) (a rhs : ndarray) :
  w_heap w !! l = Some a -> nd_shape rhs = nd_shape a -> nd_wf rhs ->
  iadd_at l rhs w =
    (Ok tt,
     set_heap (<[l := NdArray (nd_shape a)
                         (zip_with Qcplus (nd_data a) (nd_data rhs))]>
                 (w_heap w)) w).
Proof.
  intros Hl Hs Hwf. unfold iadd_at.
  erewrite bind_ok by (apply load_ok, Hl).
  erewrite bind_ok by (unfold lift; by rewrite nd_iadd_same_shape).
  reflexivity.
Qed.

Lemma run_ok {U A} (m : M U A) (w w' : world U) (log : list event) (a : A) :
  m w = (Ok a, w') -> run m (w, log) = (Ok a, (w', log)).
Proof. intros H. unfold run. simpl. by rewrite H. Qed.

Lemma run_inv {U A} (m : M U A) (w : world U) (log : list event) a wl :
  run m (w, log) = (Ok a, wl) ->
  exists w', m w = (Ok a, w') /\ wl = (w', log).
Proof.
  unfold run. simpl. destruct (m w) as [r w'] eqn:E. intros H.
  exists w'. by simplify_eq.
Qed.

(** ** Sinks *)

Lemma dot_same_length (a b : vec) :
  length a = length b -> dot a b = Ok (dotp a b).
Proof. intros H. unfold dot. by rewrite decide_True. Qed.

Lemma vsub_same_length (a b : vec) :
  length a = length b -> vsub a b = Ok (zip_with Qcminus a b).
Proof. intros H. unfold vsub. by rewrite decide_True. Qed.

Lemma tau_ok (self : SinkPlane.t) (x v : mat) (dt : Qc) (i : nat) (xi vi : vec) :
  x !! i = Some xi -> v !! i = Some vi ->
  length vi = length (SinkPlane.normal self) ->
  length xi = length (SinkPlane.normal self) ->
  length (SinkPlane.point self) = length (SinkPlane.normal self) ->
  SinkPlane.tau self x v dt i = Ok (tau_spec self xi vi dt).
Proof.
  intros Hx Hv Lv Lx Lp. unfold SinkPlane.tau, tau_spec, getrow.
  rewrite Hv. simpl. rewrite dot_same_length by done. simpl.
  destruct (decide (dotp (SinkPlane.normal self) vi = 0)) as [E|E]; [done|].
  rewrite Hx. simpl. rewrite vsub_same_length by congruence. simpl.
  rewrite dot_same_length by (rewrite length_zip_with; lia). simpl.
  unfold np_div. by rewrite decide_False.
Qed.

Lemma loop_ok (self : SinkPlane.t) (x v : mat) (dt : Qc) (n i : nat) :
  (i + n <= length x)%nat -> (i + n <= length v)%nat ->
  Forall (fun r => length r = length (SinkPlane.normal self)) x ->
  Forall (fun r => length r = length (SinkPlane.normal self)) v ->
  length (SinkPlane.point self) = length (SinkPlane.normal self) ->
  exists taus,
    SinkPlane.loop self x v dt i n = Ok taus /\
    length taus = n /\
    forall k xi vi, x !! (i + k)%nat = Some xi -> v !! (i + k)%nat = Some vi ->
                    (k < n)%nat ->
                    taus !! k = Some (tau_spec self xi vi dt).
Proof.
  intros Hx Hv Fx Fv Lp. revert i Hx Hv.
  induction n as [|n IH]; intros i Hx Hv; simpl.
  - exists []. split_and!; [done..|]. intros; lia.
  - destruct (lookup_lt_is_Some_2 x i) as [xi Exi]; [lia|].
    destruct (lookup_lt_is_Some_2 v i) as [vi Evi]; [lia|].
    pose proof (Forall_lookup_1 _ _ _ _ Fx Exi) as Lx.
    pose proof (Forall_lookup_1 _ _ _ _ Fv Evi) as Lv. simpl in Lx, Lv.
    rewrite (tau_ok self x v dt i xi vi) by done.
    simpl. destruct (IH (S i)) as (ts & E & L & Hts); [lia..|].
    rewrite E. simpl. eexists. split_and!; [done|simpl; lia|].
    intros [|k] xk vk Hxk Hvk Hk.
    + rewrite Nat.add_0_r in Hxk, Hvk.
      by simplify_eq.
    + simpl. apply Hts; [| |lia].
      * by replace (S i + k)%nat with (i + S k)%nat by lia.
      * by replace (S i + k)%nat with (i + S k)%nat by lia.
Qed.

(** C2: on rows of the width of the plane's vectors,
    [SinkPlane.find_absorption_time] returns (it raises nothing, so no
    division by zero happens) one entry per particle, which is
    [normal . (point - x_i) / (normal . v_i)] when [normal . v_i] is not
    zero and [2 * dt] when it is; for the plane through (1,0,0) with normal
    (1,0,0) and [dt = 10], a particle at the origin with velocity (1,0,0)
    gets 1 and one with velocity (0,1,0) gets 20. *)
Theorem sinkplane_absorption_time
    (self : SinkPlane.t) (x v : mat) (dt : Qc)
    (Hrows : length v = length x)
    (Hx : Forall (fun r => length r = length (SinkPlane.normal self)) x)
    (Hv : Forall (fun r => length r = length (SinkPlane.normal self)) v)
    (Hp : length (SinkPlane.point self) = length (SinkPlane.normal self)) :
  (exists taus,
      SinkPlane.find_absorption_time self x v dt = Ok taus /\
      length taus = length x /\
      forall i xi vi, x !! i = Some xi -> v !! i = Some vi ->
        let nv := dotp (SinkPlane.normal self) vi in
        (nv <> 0 ->
         taus !! i =
           Some (dotp (SinkPlane.normal self)
                      (zip_with Qcminus (SinkPlane.point self) xi) / nv)) /\
        (nv = 0 -> taus !! i = Some (two * dt))) /\
  (let plane := SinkPlane.mk [Q2Qc 1; 0; 0] [Q2Qc 1; 0; 0] in
   SinkPlane.find_absorption_time plane [[0; 0; 0]] [[Q2Qc 1; 0; 0]] (Q2Qc 10)
     = Ok [Q2Qc 1] /\
   SinkPlane.find_absorption_time plane [[0; 0; 0]] [[0; Q2Qc 1; 0]] (Q2Qc 10)
     = Ok [Q2Qc 20]).
Proof.
  split; [|split; vm_compute; reflexivity].
  unfold SinkPlane.find_absorption_time.
  destruct (loop_ok self x v dt (length x) 0) as (taus & E & L & Hts);
    [simpl; lia.. | done | done | done |].
  exists taus. split_and!; [done..|].
  intros i xi vi Exi Evi.
  assert (i < length x)%nat as Hi by (by eapply lookup_lt_Some).
  specialize (Hts i xi vi Exi Evi Hi). unfold tau_spec in Hts.
  split; intros Hnv.
  - by rewrite decide_False in Hts.
  - by rewrite decide_True in Hts.
Qed.

Lemma sinkplane_absorption_time_witness :
  exists taus,
    SinkPlane.find_absorption_time
      (SinkPlane.mk [0; 0; Q2Qc 3] [0; 0; Q2Qc 2])
      [[Q2Qc 1; Q2Qc 1; Q2Qc 1]; [0; 0; 0]]
      [[0; 0; Q2Qc 4]; [Q2Qc 5; 0; 0]] (Q2Qc 7) = Ok taus /\
    length taus = 2%nat.
Proof.
  destruct (sinkplane_absorption_time
              (SinkPlane.mk [0; 0; Q2Qc 3] [0; 0; Q2Qc 2])
              [[Q2Qc 1; Q2Qc 1; Q2Qc 1]; [0; 0; 0]]
              [[0; 0; Q2Qc 4]; [Q2Qc 5; 0; 0]] (Q2Qc 7))
    as [(taus & E & L & _) _].
  - reflexivity.
  - repeat constructor.
  - repeat constructor.
  - reflexivity.
  - exists taus. split; [exact E | exact L].
Defined.

(** C6 (the code departs from it): a particle at (2,0,0) moving with
    velocity (1,0,0) away from the plane through (1,0,0) with normal
    (1,0,0) does not meet the plane at any time in [[0, 10)], and
    [SinkPlane.find_absorption_time] returns -1 for it, which is not
    greater than [dt = 10]. *)
Theorem sinkplane_receding_particle :
  let plane := SinkPlane.mk [Q2Qc 1; 0; 0] [Q2Qc 1; 0; 0] in
  let xi := [Q2Qc 2; 0; 0] in
  let vi := [Q2Qc 1; 0; 0] in
  let dt := Q2Qc 10 in
  ~ crosses_within plane xi vi dt /\
  SinkPlane.find_absorption_time plane [xi] [vi] dt = Ok [Q2Qc (-1)] /\
  ~ dt < Q2Qc (-1).
Proof.
  intros plane xi vi dt. split_and!.
  - intros (t & Ht0 & _ & Hon). unfold on_plane, dotp in Hon. simpl in Hon.
    replace (Q2Qc 2) with (1 + 1) in Hon by (apply Qc_is_canon; reflexivity).
    assert (t = Q2Qc (-1)) as ->.
    { transitivity
        ((1 * (1 + 1 + t * 1 - 1)
          + (0 * (0 + t * 0 - 0) + (0 * (0 + t * 0 - 0) + 0))) - 1);
        [ring | rewrite Hon; apply Qc_is_canon; reflexivity]. }
    revert Ht0. vm_compute. intros H. by apply H.
  - vm_compute. reflexivity.
  - vm_compute. discriminate.
Qed.

(** C10: the base [Sink.find_absorption_time] returns one entry per
    particle, every entry is [2 * dt], and for [0 < dt] every entry is
    greater than [dt]. *)
Theorem sink_default_absorption_time (x v : mat) (dt : Qc) :
  length (Sink.find_absorption_time x v dt) = length x /\
  (forall i tau, Sink.find_absorption_time x v dt !! i = Some tau ->
                 tau = two * dt) /\
  (0 < dt ->
   forall i tau, Sink.find_absorption_time x v dt !! i = Some tau ->
                 dt < tau).
Proof.
  unfold Sink.find_absorption_time. split_and!.
  - apply length_replicate.
  - intros i tau H. by apply lookup_replicate_1 in H as [-> _].
  - intros Hdt i tau H. apply lookup_replicate_1 in H as [-> _].
    by apply lt_double.
Qed.

Lemma sink_default_absorption_time_witness :
  length (Sink.find_absorption_time [[0; 0; 0]; [0; 0; 0]]
                                    [[0; 0; 0]; [0; 0; 0]] (Q2Qc 3)) = 2%nat /\
  Q2Qc 3 < two * Q2Qc 3.
Proof.
  destruct (sink_default_absorption_time
              [[0; 0; 0]; [0; 0; 0]] [[0; 0; 0]; [0; 0; 0]] (Q2Qc 3))
    as (L & _ & H).
  split; [exact L|].
  apply (H eq_refl 1%nat). reflexivity.
Defined.

(** ** Well-formed ensembles: made by [__init__], kept by the updates *)

Lemma get_num_ptcls_ok {U} (w : world U) (N : nat) :
  wf_ensemble w N -> get_num_ptcls w = (Ok N, w).
Proof.
  intros (_ & (ax & Hx & Hs & _) & _). unfold get_num_ptcls.
  erewrite bind_ok by reflexivity.
  erewrite bind_ok by (apply load_ok, Hx).
  unfold lift, shape0. by rewrite Hs.
Qed.

Lemma get_num_ptcls_pure {U} (w : world U) r w' :
  get_num_ptcls w = (r, w') -> w' = w.
Proof.
  unfold get_num_ptcls, attr. rewrite gets_bind.
  unfold load, mbind, StateExn_bind, lift.
  destruct (w_heap w !! _) as [a|]; intros H; by simplify_eq.
Qed.

Lemma wf_ensemble_data {U} (w : world U) (N : nat) (ax av : ndarray) :
  wf_ensemble w N -> positions w = Some ax -> velocities w = Some av ->
  nd_shape ax = [N; 3%nat] /\ nd_shape av = [N; 3%nat] /\
  length (nd_data ax) = (N * 3)%nat /\ length (nd_data av) = (N * 3)%nat.
Proof.
  intros (_ & (ax0 & Hx & Hsx & Hwx) & (av0 & Hv & Hsv & Hwv) & _) Ex Ev.
  assert (ax0 = ax) as -> by congruence.
  assert (av0 = av) as -> by congruence.
  unfold nd_wf in *. rewrite Hsx in Hwx. rewrite Hsv in Hwv. simpl in *.
  split_and!; [done | done | lia | lia].
Qed.

Lemma init_wf {U} (num_ptcls : Z) (w : world U) :
  (0 <= num_ptcls)%Z ->
  exists w', init num_ptcls w = (Ok tt, w') /\
             wf_ensemble w' (Z.to_nat num_ptcls) /\
             positions w' = Some (np_zeros [Z.to_nat num_ptcls; 3%nat]) /\
             velocities w' = Some (np_zeros [Z.to_nat num_ptcls; 3%nat]).
Proof.
  intros Hn. unfold init. rewrite decide_False by lia.
  eexists. split; [reflexivity|].
  set (z := np_zeros [Z.to_nat num_ptcls; 3%nat]).
  assert (((w_heap w ++ [z]) ++ [z]) !! length (w_heap w) = Some z) as Hx.
  { rewrite <- app_assoc. by rewrite lookup_app_r, Nat.sub_diag. }
  assert (((w_heap w ++ [z]) ++ [z]) !! length (w_heap w ++ [z]) = Some z)
    as Hv by (by rewrite lookup_app_r, Nat.sub_diag).
  unfold wf_ensemble, positions, velocities. simpl.
  split_and!; try done.
  - rewrite length_app. simpl. lia.
  - exists z. split_and!; [done | done | apply np_zeros_wf].
  - exists z. split_and!; [done | done | apply np_zeros_wf].
Qed.

Lemma wf_store_x {U} (w : world U) (N : nat) (a : ndarray) :
  wf_ensemble w N -> nd_shape a = [N; 3%nat] -> nd_wf a ->
  let w' := set_heap (<[Ensemble.x (w_ens w) := a]> (w_heap w)) w in
  wf_ensemble w' N /\ positions w' = Some a /\ velocities w' = velocities w.
Proof.
  intros (Hxv & (ax & Hx & _) & (av & Hv & Hsv & Hwv) & Hpp) Hs Hwf w'.
  unfold wf_ensemble, positions, velocities in *. simpl.
  assert (Ensemble.x (w_ens w) < length (w_heap w))%nat as Hlx
    by (by eapply lookup_lt_Some).
  rewrite list_lookup_insert_eq by done.
  rewrite list_lookup_insert_ne by done.
  split_and!; [done | by exists a | by exists av | | done | done].
  intros key l Hk. destruct (Hpp key l Hk) as (H1 & H2 & H3).
  split_and!; [done..|]. apply lookup_lt_is_Some.
  rewrite length_insert. by apply lookup_lt_is_Some.
Qed.

Lemma wf_store_v {U} (w : world U) (N : nat) (a : ndarray) :
  wf_ensemble w N -> nd_shape a = [N; 3%nat] -> nd_wf a ->
  let w' := set_heap (<[Ensemble.v (w_ens w) := a]> (w_heap w)) w in
  wf_ensemble w' N /\ velocities w' = Some a /\ positions w' = positions w.
Proof.
  intros (Hxv & (ax & Hx & Hsx & Hwx) & (av & Hv & _) & Hpp) Hs Hwf w'.
  unfold wf_ensemble, positions, velocities in *. simpl.
  assert (Ensemble.v (w_ens w) < length (w_heap w))%nat as Hlv
    by (by eapply lookup_lt_Some).
  rewrite list_lookup_insert_eq by done.
  rewrite list_lookup_insert_ne by done.
  split_and!; [done | by exists ax | by exists a | | done | done].
  intros key l Hk. destruct (Hpp key l Hk) as (H1 & H2 & H3).
  split_and!; [done..|]. apply lookup_lt_is_Some.
  rewrite length_insert. by apply lookup_lt_is_Some.
Qed.

Lemma demo_world_wf : wf_ensemble demo_world 2.
Proof.
  split_and!; [done | by exists demo_x | by exists demo_v |].
  intros key l H. simpl in H. by rewrite lookup_empty in H.
Qed.

Lemma demo_world_p_wf : wf_ensemble demo_world_p 2.
Proof.
  split_and!; [done | by exists demo_x | by exists demo_v |].
  intros key l H. simpl in H. apply lookup_singleton_Some in H as [_ <-].
  split_and!; [done | done | by exists demo_p].
Qed.

Lemma demo_world_mass_wf : wf_ensemble demo_world_mass 2.
Proof.
  split_and!; [done | by exists demo_x | by exists demo_v |].
  intros key l H. simpl in H. apply lookup_singleton_Some in H as [_ <-].
  split_and!; [done | done | by exists demo_mass].
Qed.

(** ** Ensemble.resize *)

Lemma resize_at_ok {U} (w : world U) (l : nat) (n : Z) (s : list nat)
    (a : ndarray) :
  (0 <= n)%Z -> w_heap w !! l = Some a ->
  resize_at l n s w =
    (Ok tt, set_heap (<[l := nd_resize (Z.to_nat n :: s) a]> (w_heap w)) w).
Proof.
  intros Hn Hl. unfold resize_at. rewrite decide_False by lia.
  erewrite bind_ok by (apply load_ok, Hl). reflexivity.
Qed.

(** The loop over the particle properties resizes every array it is given
    to the one-dimensional shape [(new_size,)] and touches nothing else. *)
Lemma resize_props_spec {U} (n : Z) (props : list (string * nat))
    (w : world U) :
  (0 <= n)%Z ->
  (forall l, l ∈ props.*2 -> is_Some (w_heap w !! l)) ->
  exists h',
    resize_props n props w = (Ok tt, set_heap h' w) /\
    length h' = length (w_heap w) /\
    (forall l, l ∉ props.*2 -> h' !! l = w_heap w !! l) /\
    (forall l a, l ∈ props.*2 -> w_heap w !! l = Some a ->
                 h' !! l = Some (nd_resize [Z.to_nat n] a)).
Proof.
  intros Hn. revert w. induction props as [|[key l] rest IH]; intros w Hv.
  - exists (w_heap w). split_and!; [by destruct w | done | done |].
    intros l a Hl. by apply elem_of_nil in Hl.
  - destruct (Hv l) as [a Ha]; [simpl; left|].
    simpl. erewrite bind_ok by (by apply resize_at_ok).
    set (w1 := set_heap (<[l := nd_resize [Z.to_nat n] a]> (w_heap w)) w).
    assert (l < length (w_heap w))%nat as Hlt by (by eapply lookup_lt_Some).
    destruct (IH w1) as (h' & E & L & Hout & Hin).
    { intros l' Hl'. simpl. destruct (decide (l = l')) as [<-|Hne].
      - rewrite list_lookup_insert_eq by done. eauto.
      - rewrite list_lookup_insert_ne by done. apply Hv. simpl. by right. }
    exists h'. split_and!.
    + by rewrite E.
    + rewrite L. simpl. by rewrite length_insert.
    + intros l' Hl'. simpl in Hl'. apply not_elem_of_cons in Hl' as [Hne Hl'].
      rewrite Hout by done. simpl. by rewrite list_lookup_insert_ne.
    + intros l' a' Hl' Ha'. simpl in Hl'.
      destruct (decide (l' = l)) as [->|Hne].
      * assert (a' = a) as -> by congruence.
        destruct (decide (l ∈ rest.*2)) as [Hr|Hr].
        -- rewrite (Hin l (nd_resize [Z.to_nat n] a) Hr).
           ++ by rewrite nd_resize_idem.
           ++ simpl. by rewrite list_lookup_insert_eq.
        -- rewrite Hout by done. simpl. by rewrite list_lookup_insert_eq.
      * apply elem_of_cons in Hl' as [?|Hl']; [done|].
        apply Hin; [done|]. simpl. by rewrite list_lookup_insert_ne.
Qed.

(** What [resize] does to a well-formed ensemble. *)
Lemma resize_ok {U} (w : world U) (N : nat) (n : Z) (ax av : ndarray) :
  wf_ensemble w N -> (0 <= n)%Z ->
  positions w = Some ax -> velocities w = Some av ->
  exists w',
    resize n w = (Ok tt, w') /\
    wf_ensemble w' (Z.to_nat n) /\
    w_ens w' = w_ens w /\
    positions w' = Some (nd_resize [Z.to_nat n; 3%nat] ax) /\
    velocities w' = Some (nd_resize [Z.to_nat n; 3%nat] av) /\
    (forall key a, particle_property w key = Some a ->
       particle_property w' key = Some (nd_resize [Z.to_nat n] a)).
Proof.
  intros (Hxv & (ax0 & Hx & Hsx & Hwx) & (av0 & Hv & Hsv & Hwv) & Hpp) Hn Ex Ev.
  assert (ax0 = ax) as -> by congruence.
  assert (av0 = av) as -> by congruence.
  unfold positions, velocities in *.
  set (lx := Ensemble.x (w_ens w)) in *.
  set (lv := Ensemble.v (w_ens w)) in *.
  set (ax' := nd_resize [Z.to_nat n; 3%nat] ax).
  set (av' := nd_resize [Z.to_nat n; 3%nat] av).
  set (w1 := set_heap (<[lx := ax']> (w_heap w)) w).
  set (w2 := set_heap (<[lv := av']> (w_heap w1)) w1).
  assert (lx < length (w_heap w))%nat as Hlx by (by eapply lookup_lt_Some).
  assert (lv < length (w_heap w))%nat as Hlv by (by eapply lookup_lt_Some).
  destruct (resize_props_spec n
              (map_to_list (Ensemble.particle_properties (w_ens w))) w2 Hn)
    as (h' & E & L & Hout & Hin).
  { intros l Hl. apply list_elem_of_fmap in Hl as ([key l'] & -> & Hl).
    apply elem_of_map_to_list in Hl. destruct (Hpp _ _ Hl) as (H1 & H2 & H3).
    simpl. fold lx lv in H1, H2. by rewrite !list_lookup_insert_ne. }
  assert (forall l, (exists key,
             Ensemble.particle_properties (w_ens w) !! key = Some l) <->
           l ∈ (map_to_list (Ensemble.particle_properties (w_ens w))).*2)
    as Hmem.
  { intros l. split.
    - intros [key Hk]. apply list_elem_of_fmap. exists (key, l).
      split; [done|]. by apply elem_of_map_to_list.
    - intros Hl. apply list_elem_of_fmap in Hl as ([key l'] & -> & Hl).
      exists key. by apply elem_of_map_to_list. }
  assert (forall l, l = lx \/ l = lv ->
            l ∉ (map_to_list (Ensemble.particle_properties (w_ens w))).*2)
    as Hnot.
  { intros l Hl Hin'. apply Hmem in Hin' as [key Hk].
    destruct (Hpp _ _ Hk) as (H1 & H2 & _). fold lx lv in H1, H2.
    destruct Hl; congruence. }
  exists (set_heap h' w2). split_and!.
  - unfold resize. erewrite bind_ok by reflexivity. fold lx.
    erewrite bind_ok by (apply load_ok, Hx). rewrite Hsx.
    erewrite bind_ok by (by apply resize_at_ok). fold ax' w1.
    erewrite bind_ok by reflexivity.
    erewrite bind_ok.
    2: { apply resize_at_ok; [done|]. simpl.
         rewrite list_lookup_insert_ne by done. exact Hv. }
    fold lv av' w2. erewrite bind_ok by reflexivity. exact E.
  - split_and!; simpl; fold lx lv.
    + done.
    + exists ax'. unfold positions. simpl. fold lx.
      rewrite Hout by (apply Hnot; by left). simpl.
      rewrite list_lookup_insert_ne by done.
      rewrite list_lookup_insert_eq by done.
      split_and!; [done | done | apply nd_resize_wf].
    + exists av'. unfold velocities. simpl. fold lv.
      rewrite Hout by (apply Hnot; by right). simpl.
      rewrite list_lookup_insert_eq by (by rewrite length_insert).
      split_and!; [done | done | apply nd_resize_wf].
    + intros key l Hk. destruct (Hpp _ _ Hk) as (H1 & H2 & H3).
      split_and!; [done..|].
      apply lookup_lt_is_Some. rewrite L. simpl. rewrite !length_insert.
      by apply lookup_lt_is_Some.
  - done.
  - simpl. fold lx. rewrite Hout by (apply Hnot; by left). simpl.
    rewrite list_lookup_insert_ne by done.
    by rewrite list_lookup_insert_eq.
  - simpl. fold lv. rewrite Hout by (apply Hnot; by right). simpl.
    by rewrite list_lookup_insert_eq by (by rewrite length_insert).
  - intros key a. unfold particle_property. simpl.
    destruct (Ensemble.particle_properties (w_ens w) !! key) as [l|] eqn:Hk;
      [|done].
    intros Ha. destruct (Hpp _ _ Hk) as (H1 & H2 & _). fold lx lv in H1, H2.
    apply Hin; [apply Hmem; eauto|]. simpl.
    by rewrite !list_lookup_insert_ne.
Qed.

(** C7: on an ensemble of [N] particles and for [0 <= new_size],
    [resize(new_size)] gives [x] and [v] the leading length [new_size],
    keeps their rows below [min N new_size] and fills the rows from [N] on
    with zeros; and for [0 <= M], [resize(N)], [resize(M)], [resize(N)] in
    a row leave the rows below [min N M] of [x] and [v] as they were. *)
Theorem resize_keeps_prefix_zero_fills {U} (w : world U) (N : nat)
    (new_size : Z) (ax av : ndarray) :
  wf_ensemble w N -> (0 <= new_size)%Z ->
  positions w = Some ax -> velocities w = Some av ->
  (exists w' ax' av',
      resize new_size w = (Ok tt, w') /\
      positions w' = Some ax' /\ velocities w' = Some av' /\
      nd_shape ax' = [Z.to_nat new_size; 3%nat] /\
      nd_shape av' = [Z.to_nat new_size; 3%nat] /\
      (forall i, (i < N)%nat -> (i < Z.to_nat new_size)%nat ->
                 nd_getitem ax' i = nd_getitem ax i /\
                 nd_getitem av' i = nd_getitem av i) /\
      (forall i, (N <= i)%nat -> (i < Z.to_nat new_size)%nat ->
                 nd_getitem ax' i = Ok (np_zeros [3%nat]) /\
                 nd_getitem av' i = Ok (np_zeros [3%nat]))) /\
  (forall M : Z, (0 <= M)%Z ->
     exists w3 ax3 av3,
       (resize (Z.of_nat N);; resize M;; resize (Z.of_nat N)) w = (Ok tt, w3) /\
       positions w3 = Some ax3 /\ velocities w3 = Some av3 /\
       forall i, (i < N)%nat -> (i < Z.to_nat M)%nat ->
                 nd_getitem ax3 i = nd_getitem ax i /\
                 nd_getitem av3 i = nd_getitem av i).
Proof.
  intros Hwf Hn Ex Ev.
  pose proof Hwf as (_ & (ax0 & Hx & Hsx & Hwx) & (av0 & Hv & Hsv & Hwv) & _).
  assert (ax0 = ax) as -> by congruence.
  assert (av0 = av) as -> by congruence.
  split.
  - destruct (resize_ok w N new_size ax av) as (w' & E & _ & _ & Px & Pv & _);
      [done..|].
    eexists w', _, _. split_and!; [done..| |].
    + intros i H1 H2. split; by eapply getitem_resize_old.
    + intros i H1 H2. split; by eapply getitem_resize_new.
  - intros M HM.
    destruct (resize_ok w N (Z.of_nat N) ax av)
      as (w1 & E1 & Hwf1 & _ & Px1 & Pv1 & _); [done | lia | done | done |].
    rewrite Nat2Z.id in Hwf1, Px1, Pv1.
    rewrite <- Hsx, nd_resize_same in Px1 by done.
    rewrite <- Hsv, nd_resize_same in Pv1 by done.
    destruct (resize_ok w1 N M ax av)
      as (w2 & E2 & Hwf2 & _ & Px2 & Pv2 & _); [done..|].
    destruct (resize_ok w2 (Z.to_nat M) (Z.of_nat N) _ _ Hwf2 ltac:(lia) Px2 Pv2)
      as (w3 & E3 & _ & _ & Px3 & Pv3 & _).
    rewrite Nat2Z.id in Px3, Pv3.
    eexists w3, _, _. split_and!; [|done..|].
    + erewrite bind_ok by exact E1. erewrite bind_ok by exact E2. exact E3.
    + intros i H1 H2. split.
      * erewrite getitem_resize_old;
          [by eapply getitem_resize_old | reflexivity | apply nd_resize_wf
          | done | done].
      * erewrite getitem_resize_old;
          [by eapply getitem_resize_old | reflexivity | apply nd_resize_wf
          | done | done].
Qed.

Lemma resize_keeps_prefix_zero_fills_witness :
  exists w' ax' av',
    resize 3 demo_world = (Ok tt, w') /\
    positions w' = Some ax' /\ velocities w' = Some av' /\
    nd_getitem ax' 1 = nd_getitem demo_x 1 /\
    nd_getitem av' 2 = Ok (np_zeros [3%nat]).
Proof.
  destruct (resize_keeps_prefix_zero_fills demo_world 2 3 demo_x demo_v)
    as [(w' & ax' & av' & E & Px & Pv & _ & _ & Hold & Hnew) _].
  - exact demo_world_wf.
  - lia.
  - reflexivity.
  - reflexivity.
  - exists w', ax', av'. split_and!; [exact E | exact Px | exact Pv | |].
    + apply (Hold 1%nat); simpl; lia.
    + apply (Hnew 2%nat); simpl; lia.
Defined.

(** What [resize] does to the particle properties: each becomes a
    one-dimensional array of [new_size] elements, the first elements of
    the old array in C order, then zeros. *)
Lemma resize_property {U} (w : world U) (N : nat) (new_size : Z)
    (key : string) (a : ndarray) :
  wf_ensemble w N -> (0 <= new_size)%Z ->
  particle_property w key = Some a ->
  exists w',
    resize new_size w = (Ok tt, w') /\
    particle_property w' key = Some (nd_resize [Z.to_nat new_size] a).
Proof.
  intros Hwf Hn Ha.
  pose proof Hwf as (_ & (ax & Hx & _) & (av & Hv & _) & _).
  destruct (resize_ok w N new_size ax av) as (w' & E & _ & _ & _ & _ & Hp);
    [done..|].
  exists w'. split; [done|]. by apply Hp.
Qed.

(** C5 (the code departs from it): with two particles and a particle
    property of shape [(2, 2)] holding the rows (1,2) and (3,4),
    [resize(2)] leaves a property of shape [(2,)] holding 1 and 2: the
    leading length is [new_size], and the rows are not the rows they
    were (row 0 was (1,2) and is the number 1).  The same happens when
    the ensemble is made by [__init__] and the property is set with
    [set_particle_property]. *)
Theorem resize_flattens_matrix_property :
  wf_ensemble demo_world_p 2 /\
  particle_property demo_world_p "p" = Some demo_p /\
  nd_getitem demo_p 0 = Ok (NdArray [2%nat] (map qz [1; 2]%Z)) /\
  exists w' p',
    resize 2 demo_world_p = (Ok tt, w') /\
    particle_property w' "p" = Some p' /\
    p' = NdArray [2%nat] (map qz [1; 2]%Z) /\
    nd_getitem p' 0 = Ok (NdArray [] [qz 1]) /\
    nd_getitem p' 0 <> nd_getitem demo_p 0 /\
    exists w'',
      (init 2;; set_particle_property "p" 0;; resize 2)
        (World [demo_p] (Ensemble.mk 0 0 ∅ ∅) tt) = (Ok tt, w'') /\
      particle_property w'' "p" = Some p'.
Proof.
  split_and!; [exact demo_world_p_wf | reflexivity | reflexivity |].
  destruct (resize_property demo_world_p 2 2 "p" demo_p)
    as (w' & E & Hp); [exact demo_world_p_wf | lia | reflexivity |].
  exists w', (nd_resize [2%nat] demo_p).
  split_and!; [done | done | reflexivity | reflexivity | discriminate |].
  eexists. split; vm_compute; reflexivity.
Qed.

(** ** Ensemble.set_particle_property *)

(** C9: for a caller's array [p] of leading length [n] and an ensemble of
    [N] particles, [set_particle_property(key, prop)] raises the
    [RuntimeError] of a size mismatch and changes nothing when [n <> N];
    when [n = N] it returns, and [key] then refers to a new array, equal
    to [p], at a location no reference held before (so not the caller's
    array), whatever [key] referred to before; writing to the caller's
    array afterwards does not change the stored property. *)
Theorem set_particle_property_spec {U} (w : world U) (key : string)
    (prop : nat) (p ax : ndarray) (n N : nat) :
  w_heap w !! prop = Some p -> shape0 p = Ok n ->
  positions w = Some ax -> shape0 ax = Ok N ->
  (n <> N ->
   set_particle_property key prop w =
     (Raise (RuntimeError
               "Size of property array does not match number of particles."),
      w)) /\
  (n = N ->
   exists w' l,
     set_particle_property key prop w = (Ok tt, w') /\
     Ensemble.particle_properties (w_ens w') =
       <[key := l]> (Ensemble.particle_properties (w_ens w)) /\
     Ensemble.x (w_ens w') = Ensemble.x (w_ens w) /\
     Ensemble.v (w_ens w') = Ensemble.v (w_ens w) /\
     Ensemble.ensemble_properties (w_ens w') =
       Ensemble.ensemble_properties (w_ens w) /\
     w_heap w !! l = None /\ l <> prop /\
     w_heap w' = w_heap w ++ [p] /\
     particle_property w' key = Some p /\
     forall p' : ndarray,
       particle_property (set_heap (<[prop := p']> (w_heap w')) w') key
       = Some p).
Proof.
  intros Hp Hn Hx HN.
  assert (get_num_ptcls w = (Ok N, w)) as Hnum.
  { unfold get_num_ptcls. erewrite bind_ok by reflexivity.
    erewrite bind_ok by (apply load_ok, Hx). unfold lift. by rewrite HN. }
  assert (prop < length (w_heap w))%nat as Hlt by (by eapply lookup_lt_Some).
  split; intros Hcmp; unfold set_particle_property.
  - erewrite bind_ok by (apply load_ok, Hp).
    erewrite bind_ok by (unfold lift; by rewrite Hn).
    erewrite bind_ok by exact Hnum.
    by rewrite decide_True.
  - erewrite bind_ok by (apply load_ok, Hp).
    erewrite bind_ok by (unfold lift; by rewrite Hn).
    erewrite bind_ok by exact Hnum.
    rewrite decide_False by (intros ?; done).
    erewrite bind_ok by reflexivity.
    erewrite bind_ok by reflexivity.
    rewrite np_copy_eq.
    eexists _, (length (w_heap w)). split; [reflexivity|]. simpl.
    split_and!; try done.
    + by apply lookup_ge_None_2.
    + lia.
    + unfold particle_property. simpl. rewrite lookup_insert_eq.
      by rewrite lookup_app_r, Nat.sub_diag.
    + intros p'. unfold particle_property. simpl. rewrite lookup_insert_eq.
      rewrite list_lookup_insert_ne by lia.
      by rewrite lookup_app_r, Nat.sub_diag.
Qed.

Lemma set_particle_property_spec_witness :
  exists w' l,
    set_particle_property "q" 2 demo_world_p = (Ok tt, w') /\
    Ensemble.particle_properties (w_ens w') =
      <[ "q" := l ]> (Ensemble.particle_properties (w_ens demo_world_p)) /\
    l <> 2%nat /\
    forall p' : ndarray,
      particle_property (set_heap (<[2%nat := p']> (w_heap w')) w') "q"
      = Some demo_p.
Proof.
  destruct (set_particle_property_spec demo_world_p "q" 2 demo_p demo_x 2 2)
    as [_ H].
  - reflexivity.
  - reflexivity.
  - reflexivity.
  - reflexivity.
  - destruct (H eq_refl) as (w' & l & E & Hpp & _ & _ & _ & _ & Hl & _ & _ & Hiso).
    exists w', l. split_and!; [exact E | exact Hpp | exact Hl | exact Hiso].
Defined.

Lemma set_particle_property_wf {U} (w : world U) (N : nat) (key : string)
    (prop : nat) (p : ndarray) :
  wf_ensemble w N -> w_heap w !! prop = Some p -> shape0 p = Ok N ->
  exists w', set_particle_property key prop w = (Ok tt, w') /\
             wf_ensemble w' N /\ particle_property w' key = Some p.
Proof.
  intros Hwf Hp Hn.
  pose proof Hwf as (Hxv & (ax & Hx & Hsx & Hwx) & (av & Hv & Hsv & Hwv) & Hpp).
  unfold positions, velocities in *.
  assert (Ensemble.x (w_ens w) < length (w_heap w))%nat as Hlx
    by (by eapply lookup_lt_Some).
  assert (Ensemble.v (w_ens w) < length (w_heap w))%nat as Hlv
    by (by eapply lookup_lt_Some).
  unfold set_particle_property.
  erewrite bind_ok by (apply load_ok, Hp).
  erewrite bind_ok by (unfold lift; by rewrite Hn).
  erewrite bind_ok by (by apply get_num_ptcls_ok).
  rewrite decide_False by (intros ?; done).
  erewrite bind_ok by reflexivity. erewrite bind_ok by reflexivity.
  rewrite np_copy_eq. eexists. split; [reflexivity|].
  unfold wf_ensemble, positions, velocities, particle_property. simpl.
  rewrite lookup_insert_eq, !lookup_app_l by done.
  rewrite lookup_app_r, Nat.sub_diag by done.
  split_and!; [done | by exists ax | by exists av | | done].
  intros key' l Hk. destruct (decide (key = key')) as [<-|Hne].
  - rewrite lookup_insert_eq in Hk. injection Hk as <-.
    split_and!; [lia | lia |]. by rewrite lookup_app_r, Nat.sub_diag.
  - rewrite lookup_insert_ne in Hk by done.
    destruct (Hpp _ _ Hk) as (H1 & H2 & [a Ha]).
    split_and!; [done | done |]. exists a.
    rewrite lookup_app_l; [done | by eapply lookup_lt_Some].
Qed.

(** ** drift_kick *)

(** C8: with no forces, [drift_kick(dt, ensemble, [])] on an ensemble of
    [N] particles returns, [x] then holds [x + dt * v] element by element,
    and [v], the two property maps and every other array are as before. *)
Theorem drift_kick_no_forces {U} (w : world U) (N : nat) (dt : Qc)
    (ax av : ndarray) :
  wf_ensemble w N -> positions w = Some ax -> velocities w = Some av ->
  exists w',
    drift_kick dt [] w = (Ok tt, w') /\
    positions w' =
      Some (NdArray [N; 3%nat]
              (zip_with Qcplus (nd_data ax) (map (Qcmult dt) (nd_data av)))) /\
    velocities w' = Some av /\
    w_ens w' = w_ens w /\ w_user w' = w_user w /\
    forall l, l <> Ensemble.x (w_ens w) -> w_heap w' !! l = w_heap w !! l.
Proof.
  intros (Hxv & (ax0 & Hx & Hsx & Hwx) & (av0 & Hv & Hsv & Hwv) & _) Ex Ev.
  assert (ax0 = ax) as -> by congruence.
  assert (av0 = av) as -> by congruence.
  unfold positions, velocities in *.
  assert (Ensemble.x (w_ens w) < length (w_heap w))%nat as Hlx
    by (by eapply lookup_lt_Some).
  eexists. split.
  - unfold drift_kick. rewrite decide_True by done.
    erewrite bind_ok by reflexivity. erewrite bind_ok by reflexivity.
    erewrite bind_ok by (apply load_ok, Hv).
    apply iadd_at_ok; [exact Hx | simpl; congruence | by apply nd_scale_wf].
  - simpl. split_and!; try done.
    + rewrite list_lookup_insert_eq by done. by rewrite Hsx.
    + by rewrite list_lookup_insert_ne.
    + intros l Hl. by rewrite list_lookup_insert_ne.
Qed.

Lemma drift_kick_no_forces_witness :
  exists w',
    drift_kick (qz 2) [] demo_world = (Ok tt, w') /\
    positions w' = Some (NdArray [2; 3]%nat (map qz [3; 2; 3; 4; 9; 6]%Z)) /\
    velocities w' = Some demo_v.
Proof.
  destruct (drift_kick_no_forces demo_world 2 (qz 2) demo_x demo_v)
    as (w' & E & Px & Pv & _).
  - exact demo_world_wf.
  - reflexivity.
  - reflexivity.
  - exists w'. split_and!; [exact E | | exact Pv].
    rewrite Px. vm_compute. reflexivity.
Defined.

(** [drift_kick] with forces runs the five steps. *)
Lemma drift_kick_steps {U} (dt : Qc) (forces : list (force U)) (w : world U) :
  forces <> [] -> drift_kick dt forces w = drift_kick_in_steps dt forces w.
Proof.
  intros Hne. unfold drift_kick, drift_kick_in_steps.
  rewrite decide_False by (by destruct forces).
  unfold half_drift, total_force, kick.
  repeat (rewrite ?bind_assoc; apply bind_ext; intros ? ?).
  unfold attr. rewrite !gets_bind, lift_bind. unfold spec_resolve_mass.
  destruct (Ensemble.ensemble_properties _ !! "mass") as [m|].
  - rewrite ret_bind, !bind_assoc. apply bind_ext. intros lv s.
    by rewrite bind_assoc.
  - destruct (Ensemble.particle_properties _ !! "mass") as [l|].
    + rewrite ret_bind, !bind_assoc. apply bind_ext. intros lv s.
      by rewrite bind_assoc.
    + reflexivity.
Qed.

(** The algebra of the three phases on one row. *)
Lemma split_step_row (xi vi F : vec) (dt m : Qc) :
  length xi = 3%nat -> length vi = 3%nat -> length F = 3%nat -> m <> 0 ->
  let v' := zip_with Qcplus vi
              (map (Qcmult (dt / m)) (zip_with Qcplus (replicate 3 0) F)) in
  v' = vadd vi (vscale (dt / m) F) /\
  zip_with Qcplus (zip_with Qcplus xi (map (Qcmult (half * dt)) vi))
           (map (Qcmult (half * dt)) v')
  = vadd (vadd xi (vscale dt vi)) (vscale (half * (dt * dt / m)) F).
Proof.
  intros Hx Hv HF Hm.
  destruct (vec3 xi Hx) as (x0 & x1 & x2 & ->).
  destruct (vec3 vi Hv) as (v0 & v1 & v2 & ->).
  destruct (vec3 F HF) as (f0 & f1 & f2 & ->).
  assert (forall a b c : Qc, a + half * dt * b + half * dt * (b + dt / m * (0 + c))
                             = a + dt * b + half * (dt * dt / m) * c) as E.
  { intros a b c.
    transitivity (a + (half + half) * dt * b + half * (dt * dt / m) * c);
      [field; done | rewrite half_twice; ring]. }
  split; unfold vadd, vscale; simpl.
  - repeat f_equal; ring.
  - by rewrite !E.
Qed.

Lemma half_drift_ok {U} (w : world U) (N : nat) (dt : Qc) (ax av : ndarray) :
  wf_ensemble w N -> positions w = Some ax -> velocities w = Some av ->
  half_drift dt w = (Ok tt, half_drifted dt ax av w) /\
  wf_ensemble (half_drifted dt ax av w) N /\
  positions (half_drifted dt ax av w) =
    Some (NdArray [N; 3%nat]
            (zip_with Qcplus (nd_data ax)
                      (map (Qcmult (half * dt)) (nd_data av)))) /\
  velocities (half_drifted dt ax av w) = Some av.
Proof.
  intros Hwf Ex Ev.
  destruct (wf_ensemble_data w N ax av) as (Hsx & Hsv & Lx & Lv); [done..|].
  pose proof Hwf as (_ & _ & (av0 & Hv0 & _ & Hwv) & _).
  assert (av0 = av) as -> by congruence.
  split.
  - unfold half_drift. erewrite bind_ok by reflexivity.
    erewrite bind_ok by reflexivity.
    erewrite bind_ok by (apply load_ok, Ev).
    apply iadd_at_ok; [exact Ex | simpl; congruence | by apply nd_scale_wf].
  - unfold half_drifted. rewrite Hsx.
    destruct (wf_store_x w N
      (NdArray [N; 3%nat]
         (zip_with Qcplus (nd_data ax) (map (Qcmult (half * dt)) (nd_data av)))))
      as (H1 & H2 & H3); [done | done | |].
    + unfold nd_wf. simpl. rewrite length_zip_with, length_map. lia.
    + split_and!; [done | done | congruence].
Qed.

Lemma kick_float_ok {U} (w : world U) (N : nat) (dt m : Qc) (av f : ndarray) :
  wf_ensemble w N -> velocities w = Some av -> m <> 0 ->
  nd_shape f = [N; 3%nat] -> nd_wf f ->
  kick dt (PyFloat m) f w =
    (Ok tt,
     set_heap (<[Ensemble.v (w_ens w) :=
                   NdArray [N; 3%nat]
                     (zip_with Qcplus (nd_data av)
                               (map (Qcmult (dt / m)) (nd_data f)))]>
                 (w_heap w)) w).
Proof.
  intros Hwf Ev Hm Hsf Hwff.
  pose proof Hwf as (_ & _ & (av0 & Hv0 & Hsv & _) & _).
  assert (av0 = av) as -> by congruence.
  unfold kick. erewrite bind_ok by reflexivity.
  erewrite bind_ok.
  2: { unfold kick_of. erewrite bind_ok; [reflexivity|].
       unfold lift, py_div. by rewrite decide_False. }
  rewrite <- Hsv. apply iadd_at_ok; [exact Ev | simpl; congruence |].
  by apply nd_scale_wf.
Qed.

Lemma uniform_force_ok {U} (F : vec) (N : nat) (w : world U) :
  wf_ensemble w N -> uniform_force F w = (Ok (uniform_rows N F), w).
Proof.
  intros Hwf. unfold uniform_force.
  erewrite bind_ok by (by apply get_num_ptcls_ok). reflexivity.
Qed.

(** C1: on an ensemble of [N] particles whose ensemble property [mass] is
    the number [m] (not zero), with one force that returns the vector [F]
    for each of the [N] particles and changes nothing,
    [drift_kick(dt, ensemble, [force])] returns, and every particle [i],
    at [xi] with velocity [vi] before, then has the velocity
    [vi + (dt/m) F] and the position [xi + dt vi + 0.5 (dt^2/m) F]. *)
Theorem drift_kick_uniform_force {U} (w : world U) (N : nat) (dt m : Qc)
    (F : vec) (force : force U) (ax av : ndarray) :
  wf_ensemble w N -> positions w = Some ax -> velocities w = Some av ->
  Ensemble.ensemble_properties (w_ens w) !! "mass" = Some (PyFloat m) ->
  m <> 0 -> length F = 3%nat ->
  (forall w1 : world U, wf_ensemble w1 N ->
                        force w1 = (Ok (uniform_rows N F), w1)) ->
  exists w' ax' av',
    drift_kick dt [force] w = (Ok tt, w') /\
    positions w' = Some ax' /\ velocities w' = Some av' /\
    forall i, (i < N)%nat ->
      exists xi vi,
        nd_getitem ax i = Ok (NdArray [3%nat] xi) /\
        nd_getitem av i = Ok (NdArray [3%nat] vi) /\
        nd_getitem av' i =
          Ok (NdArray [3%nat] (vadd vi (vscale (dt / m) F))) /\
        nd_getitem ax' i =
          Ok (NdArray [3%nat]
                (vadd (vadd xi (vscale dt vi))
                      (vscale (half * (dt * dt / m)) F))).
Proof.
  intros Hwf Ex Ev Hmass Hm HF Hforce.
  destruct (wf_ensemble_data w N ax av) as (Hsx & Hsv & Lx & Lv); [done..|].
  destruct (half_drift_ok w N dt ax av) as (E1 & Hwf1 & Px1 & Pv1); [done..|].
  set (w1 := half_drifted dt ax av w) in *.
  set (dx1 := zip_with Qcplus (nd_data ax)
                       (map (Qcmult (half * dt)) (nd_data av))) in *.
  set (df := zip_with Qcplus (replicate (N * 3) 0) (concat (replicate N F))).
  assert (total_force [force] w1 = (Ok (NdArray [N; 3%nat] df), w1)) as E2.
  { unfold total_force. erewrite bind_ok by reflexivity.
    erewrite bind_ok by (apply load_ok, Pv1). simpl.
    erewrite bind_ok by (by apply Hforce).
    erewrite bind_ok; [reflexivity|]. unfold lift.
    rewrite nd_iadd_same_shape.
    - unfold np_zeros_like, np_zeros, df. by rewrite Hsv.
    - unfold np_zeros_like, np_zeros, uniform_rows. simpl. by rewrite Hsv, HF.
    - apply uniform_rows_wf. }
  assert (w_ens w1 = w_ens w) as Hens by done.
  set (dv' := zip_with Qcplus (nd_data av) (map (Qcmult (dt / m)) df)).
  destruct (wf_store_v w1 N (NdArray [N; 3%nat] dv')) as (Hwf2 & Pv2 & Px2);
    [done | done | |].
  { unfold nd_wf, dv', df. simpl.
    rewrite length_zip_with, length_map, length_zip_with, length_replicate,
      length_concat_replicate. lia. }
  set (w2 := set_heap (<[Ensemble.v (w_ens w1) := NdArray [N; 3%nat] dv']>
                         (w_heap w1)) w1) in *.
  assert (kick dt (PyFloat m) (NdArray [N; 3%nat] df) w1 = (Ok tt, w2)) as E3.
  { apply kick_float_ok; [done..|].
    unfold nd_wf, df. simpl.
    rewrite length_zip_with, length_replicate, length_concat_replicate. lia. }
  rewrite Px1 in Px2.
  destruct (half_drift_ok w2 N dt _ _ Hwf2 Px2 Pv2) as (E4 & _ & Px3 & Pv3).
  eexists _, _, _. split_and!; [|exact Px3|exact Pv3|].
  - rewrite drift_kick_steps by done. unfold drift_kick_in_steps.
    erewrite bind_ok by exact E1. erewrite bind_ok by exact E2.
    erewrite bind_ok by reflexivity.
    erewrite bind_ok.
    2: { unfold lift, spec_resolve_mass. rewrite Hens, Hmass. reflexivity. }
    erewrite bind_ok by exact E3. exact E4.
  - intros i Hi.
    destruct ax as [sx dx]. destruct av as [sv dv]. simpl in *. subst sx sv.
    exists (row i dx), (row i dv).
    rewrite !getitem_row by done.
    destruct (split_step_row (row i dx) (row i dv) F dt m) as [Hv' Hx'];
      [by eapply length_row | by eapply length_row | done | done |].
    split_and!; [done | done | |]; do 2 f_equal.
    + rewrite <- Hv'. unfold dv', df.
      rewrite row_zip_with, row_map, row_zip_with, row_zeros, row_uniform;
        done.
    + rewrite <- Hx'. unfold dx1, dv', df.
      rewrite !row_zip_with, !row_map, !row_zip_with, !row_map, row_zip_with,
        row_zeros, row_uniform; done.
Qed.

Lemma drift_kick_uniform_force_witness :
  exists w' ax' av',
    drift_kick (qz 2) [uniform_force (map qz [1; 0; 0]%Z)] demo_world_mass
      = (Ok tt, w') /\
    positions w' = Some ax' /\ velocities w' = Some av' /\
    exists xi vi,
      nd_getitem demo_x 0 = Ok (NdArray [3%nat] xi) /\
      nd_getitem demo_v 0 = Ok (NdArray [3%nat] vi) /\
      nd_getitem av' 0 =
        Ok (NdArray [3%nat]
              (vadd vi (vscale (qz 2 / qz 2) (map qz [1; 0; 0]%Z)))) /\
      nd_getitem ax' 0 =
        Ok (NdArray [3%nat]
              (vadd (vadd xi (vscale (qz 2) vi))
                    (vscale (half * (qz 2 * qz 2 / qz 2))
                            (map qz [1; 0; 0]%Z)))).
Proof.
  destruct (drift_kick_uniform_force demo_world_mass 2 (qz 2) (qz 2)
              (map qz [1; 0; 0]%Z) (uniform_force (map qz [1; 0; 0]%Z))
              demo_x demo_v)
    as (w' & ax' & av' & E & Px & Pv & Hrows).
  - exact demo_world_mass_wf.
  - reflexivity.
  - reflexivity.
  - reflexivity.
  - discriminate.
  - reflexivity.
  - intros w1 Hw1. by apply uniform_force_ok.
  - exists w', ax', av'. split_and!; [exact E | exact Px | exact Pv |].
    apply (Hrows 0%nat). lia.
Defined.

(** The particle-property branch hands the kick an array: [dt / m] has the
    shape of [m], and numpy aligns shapes at the last axis, so a mass of
    shape [(N,)] meets the force of shape [(N, 3)] only for [N = 1] or
    [N = 3].  With two particles and the mass array [[5, 5]] the kick
    raises [ValueError], after the first half-drift. *)
Lemma drift_kick_particle_mass_shape :
  drift_kick (qz 2) [uniform_force (map qz [1; 0; 0]%Z)] demo_world_pmass
  = (Raise ValueError, half_drifted (qz 2) demo_x demo_v demo_world_pmass).
Proof. reflexivity. Qed.

(** ** produce_ptcls: the calls of a run that returns *)

Lemma sum_Z_app (l1 l2 : list Z) : sum_Z (l1 ++ l2) = (sum_Z l1 + sum_Z l2)%Z.
Proof. induction l1 as [|n l1 IH]; simpl; lia. Qed.

Lemma sum_Z_take_S (counts : list Z) (i : nat) (n : Z) :
  counts !! i = Some n ->
  sum_Z (take (S i) counts) = (sum_Z (take i counts) + n)%Z.
Proof.
  intros H. rewrite (take_S_r _ _ _ H), sum_Z_app. simpl. lia.
Qed.

Lemma sum_Z_take_mono (counts : list Z) (i j : nat) :
  Forall (fun n => 0 <= n)%Z counts -> (i <= j)%nat ->
  (sum_Z (take i counts) <= sum_Z (take j counts))%Z.
Proof.
  intros Hpos. revert i j.
  induction Hpos as [|c counts Hc _ IH]; intros i j Hij.
  - by rewrite !take_nil.
  - destruct i as [|i], j as [|j]; simpl; try lia.
    + assert (0 <= sum_Z (take j counts))%Z; [|lia].
      specialize (IH 0%nat j ltac:(lia)). by rewrite take_0 in IH.
    + specialize (IH i j ltac:(lia)). lia.
Qed.

Lemma num_events_lookup (dt : Qc) (counts : list Z) (i0 i : nat) (n : Z) :
  counts !! i = Some n ->
  num_events dt i0 counts !! i = Some (CallNum (i0 + i) dt n).
Proof.
  revert i0 i. induction counts as [|c counts IH]; intros i0 i H; [done|].
  destruct i as [|i]; simpl in *.
  - injection H as ->. by rewrite Nat.add_0_r.
  - rewrite (IH _ _ H). do 2 f_equal. lia.
Qed.

Lemma produce_events_lookup (dt : Qc) (counts : list Z) (i0 : nat)
    (cursor : Z) (i : nat) (n : Z) :
  counts !! i = Some n ->
  produce_events dt i0 cursor counts !! i =
    Some (CallProduce (i0 + i) dt (cursor + sum_Z (take i counts))
                      (cursor + sum_Z (take i counts) + n)).
Proof.
  revert i0 cursor i. induction counts as [|c counts IH]; intros i0 cursor i H.
  - done.
  - destruct i as [|i]; simpl in *.
    + injection H as ->. by rewrite Nat.add_0_r, Z.add_0_r.
    + rewrite (IH _ _ _ H). do 2 f_equal; lia.
Qed.

Lemma query_sources_spec {U} (dt : Qc) (sources : list (Source.t U))
    (i : nat) (acc : list Z) (tot : Z) (w : world U) (log : list event)
    nums tot' w1 log1 :
  query_sources dt i sources acc tot (w, log) = (Ok (nums, tot'), (w1, log1)) ->
  exists counts,
    length counts = length sources /\
    nums = acc ++ counts /\ tot' = (tot + sum_Z counts)%Z /\
    log1 = log ++ num_events dt i counts /\
    ask_all dt sources w = (Ok counts, w1).
Proof.
  revert i acc tot w log.
  induction sources as [|s rest IH]; intros i acc tot w log H; simpl in H.
  - injection H as <- <- <- <-. exists [].
    rewrite !app_nil_r. simpl. split_and!; [done | done | lia | done | done].
  - apply bind_inv in H as (n & [w2 log2] & Hn & H).
    apply run_inv in Hn as (w2' & Hn & [= -> ->]).
    apply bind_inv in H as ([] & [w3 log3] & He & H).
    injection He as <- <-.
    apply IH in H as (counts & HL & -> & -> & -> & Hask).
    exists (n :: counts). simpl. split_and!.
    + lia.
    + by rewrite <- app_assoc.
    + lia.
    + by rewrite <- app_assoc.
    + erewrite bind_ok by exact Hn. erewrite bind_ok by exact Hask. done.
Qed.

Lemma insert_ptcls_spec {U} (dt : Qc) (sources : list (Source.t U))
    (i : nat) (pre counts : list Z) (start : Z) (w : world U)
    (log : list event) w' log' :
  length pre = i -> length counts = length sources ->
  insert_ptcls dt i sources (pre ++ counts) start (w, log)
    = (Ok tt, (w', log')) ->
  log' = log ++ produce_events dt i start counts.
Proof.
  revert i pre counts start w log.
  induction sources as [|s rest IH]; intros i pre counts start w log Hi HL H.
  - destruct counts; [|done]. simpl in H. injection H as <- <-.
    simpl. by rewrite app_nil_r.
  - destruct counts as [|n counts]; [done|]. simpl in H.
    rewrite lookup_app_r in H by lia.
    replace (i - length pre)%nat with 0%nat in H by lia. simpl in H.
    rewrite ret_bind in H.
    apply bind_inv in H as ([] & [w2 log2] & He & H). injection He as <- <-.
    apply bind_inv in H as ([] & [w3 log3] & Hp & H).
    apply run_inv in Hp as (w3' & Hp & [= -> ->]).
    replace (pre ++ n :: counts) with ((pre ++ [n]) ++ counts) in H
      by (by rewrite <- app_assoc).
    apply IH in H.
    + rewrite H. simpl. by rewrite <- app_assoc.
    + rewrite length_app. simpl. lia.
    + simpl in HL. lia.
Qed.

(** The world that the second loop leaves is the one that the calls of
    step 3 make. *)
Lemma insert_ptcls_world {U} (dt : Qc) (sources : list (Source.t U))
    (i : nat) (pre counts : list Z) (start : Z) (w : world U)
    (log : list event) w' log' :
  length pre = i -> length counts = length sources ->
  insert_ptcls dt i sources (pre ++ counts) start (w, log)
    = (Ok tt, (w', log')) ->
  produce_all dt start sources counts w = (Ok tt, w').
Proof.
  revert i pre counts start w log.
  induction sources as [|s rest IH]; intros i pre counts start w log Hi HL H.
  - destruct counts; [|done]. simpl in H. by injection H as <- <-.
  - destruct counts as [|n counts]; [done|]. simpl in H.
    rewrite lookup_app_r in H by lia.
    replace (i - length pre)%nat with 0%nat in H by lia. simpl in H.
    rewrite ret_bind in H.
    apply bind_inv in H as ([] & [w2 log2] & He & H). injection He as <- <-.
    apply bind_inv in H as ([] & [w3 log3] & Hp & H).
    apply run_inv in Hp as (w3' & Hp & [= -> ->]).
    replace (pre ++ n :: counts) with ((pre ++ [n]) ++ counts) in H
      by (by rewrite <- app_assoc).
    apply IH in H.
    + simpl. by erewrite bind_ok by exact Hp.
    + rewrite length_app. simpl. lia.
    + simpl in HL. lia.
Qed.

(** C4: a run of [produce_ptcls] that returns has asked every source of
    the list once for its count, in list order (step 1, [ask_all]), has
    then read the particle count [old_N] and told the ensemble once to
    resize to [old_N] plus the sum of the counts, and has then told every
    source, in list order, to produce into its range (step 3,
    [produce_all]); these are all its calls, and the ensemble it leaves is
    the one that the last source left.  The range of source [i] has the
    length of the count that source [i] answered in step 1, the first
    range starts at [old_N], each range stops where the next starts, and
    for counts that are not negative an earlier range stops before a later
    one starts.  With two sources that answer 3 and then 5 (and would
    answer 7 if asked again) and write 7s and 9s into their rows, on two
    particles: resize to 10, ranges [2,5) and [5,10), and afterwards 10
    particles, the two old ones in rows 0 and 1, 7s in rows 2 to 4 and 9s
    in rows 5 to 9. *)
Theorem produce_ptcls_calls {U} (dt : Qc) (sources : list (Source.t U))
    (w : world U) (log : list event) (w' : world U) (log' : list event) :
  produce_ptcls dt sources (w, log) = (Ok tt, (w', log')) ->
  (exists (counts : list Z) (w1 w2 : world U) (old_N : nat),
      ask_all dt sources w = (Ok counts, w1) /\
      length counts = length sources /\
      get_num_ptcls w1 = (Ok old_N, w1) /\
      resize (Z.of_nat old_N + sum_Z counts) w1 = (Ok tt, w2) /\
      produce_all dt (Z.of_nat old_N) sources counts w2 = (Ok tt, w') /\
      log' = log ++ num_events dt 0 counts
                 ++ [CallResize (Z.of_nat old_N + sum_Z counts)]
                 ++ produce_events dt 0 (Z.of_nat old_N) counts /\
      (forall i n, counts !! i = Some n ->
         num_events dt 0 counts !! i = Some (CallNum i dt n) /\
         produce_events dt 0 (Z.of_nat old_N) counts !! i =
           Some (CallProduce i dt (range_start (Z.of_nat old_N) counts i)
                             (range_stop (Z.of_nat old_N) counts i)) /\
         (range_stop (Z.of_nat old_N) counts i
          - range_start (Z.of_nat old_N) counts i = n)%Z) /\
      range_start (Z.of_nat old_N) counts 0 = Z.of_nat old_N /\
      (forall i, range_stop (Z.of_nat old_N) counts i
                 = range_start (Z.of_nat old_N) counts (S i)) /\
      (Forall (fun n => 0 <= n)%Z counts ->
       forall i j, (i < j)%nat ->
         (range_stop (Z.of_nat old_N) counts i
          <= range_start (Z.of_nat old_N) counts j)%Z)) /\
  (exists w3 ax3,
      produce_ptcls (qz 1) [demo_writer (qz 7); demo_writer (qz 9)]
                    (demo_world_src, [])
      = (Ok tt,
         (w3, [CallNum 0 (qz 1) 3; CallNum 1 (qz 1) 5; CallResize 10;
               CallProduce 0 (qz 1) 2 5; CallProduce 1 (qz 1) 5 10])) /\
      get_num_ptcls w3 = (Ok 10%nat, w3) /\
      positions w3 = Some ax3 /\
      nd_shape ax3 = [10; 3]%nat /\
      nd_data ax3 = nd_data demo_x ++ replicate 9 (qz 7)
                                   ++ replicate 15 (qz 9)).
Proof.
  intros H. split.
  - unfold produce_ptcls in H.
    apply bind_inv in H as ([nums tot] & [w1 log1] & Hq & H).
    apply query_sources_spec in Hq as (counts & HL & -> & -> & -> & Hask).
    apply bind_inv in H as (start & [w1a log1a] & Hs & H).
    apply run_inv in Hs as (w1a' & Hs & [= -> ->]).
    apply bind_inv in H as (num_ptcls & [w1b log1b] & Hn & H).
    apply run_inv in Hn as (w1b' & Hn & [= -> ->]).
    pose proof (get_num_ptcls_pure _ _ _ Hs) as ->.
    pose proof (get_num_ptcls_pure _ _ _ Hn) as ->.
    assert (num_ptcls = start) as -> by congruence.
    apply bind_inv in H as ([] & [w1c log1c] & He & H). injection He as <- <-.
    apply bind_inv in H as ([] & [w2 log2] & Hr & H).
    apply run_inv in Hr as (w2' & Hr & [= -> ->]).
    pose proof (insert_ptcls_world dt sources 0 [] counts _ _ _ _ _
                  eq_refl HL H) as Hw.
    apply (insert_ptcls_spec dt sources 0 [] counts) in H; [|done|done].
    simpl in Hr. rewrite Z.add_0_l in Hr.
    exists counts, w1, w2', start. split_and!; try done.
    + rewrite H. simpl. rewrite Z.add_0_l. by rewrite <- !app_assoc.
    + intros i n Hi. split_and!.
      * by rewrite (num_events_lookup _ _ _ _ _ Hi).
      * rewrite (produce_events_lookup _ _ _ _ _ _ Hi).
        unfold range_start, range_stop.
        rewrite (sum_Z_take_S _ _ _ Hi). do 2 f_equal. lia.
      * unfold range_start, range_stop. rewrite (sum_Z_take_S _ _ _ Hi). lia.
    + unfold range_start. rewrite take_0. simpl. lia.
    + intros Hpos i j Hij. unfold range_start, range_stop.
      pose proof (sum_Z_take_mono counts (S i) j Hpos ltac:(lia)). lia.
  - eexists _, _. split_and!.
    + vm_compute. reflexivity.
    + vm_compute. reflexivity.
    + vm_compute. reflexivity.
    + reflexivity.
    + apply vec_eqb_eq. vm_compute. reflexivity.
Qed.

Lemma produce_ptcls_calls_witness :
  exists (counts : list Z) (old_N : nat) (w2 w' : world nat),
    counts = [3; 5]%Z /\ old_N = 2%nat /\
    produce_all (qz 1) (Z.of_nat old_N)
                [demo_writer (qz 7); demo_writer (qz 9)] counts w2
      = (Ok tt, w') /\
    produce_events (qz 1) 0 (Z.of_nat old_N) counts !! 1%nat =
      Some (CallProduce 1 (qz 1) (range_start (Z.of_nat old_N) counts 1)
                        (range_stop (Z.of_nat old_N) counts 1)).
Proof.
  pose (r := produce_ptcls (qz 1) [demo_writer (qz 7); demo_writer (qz 9)]
                           (demo_world_src, [])).
  destruct (produce_ptcls_calls (qz 1) [demo_writer (qz 7); demo_writer (qz 9)]
              demo_world_src [] (r.2).1 (r.2).2)
    as [(counts & w1 & w2 & old_N & Hask & _ & Hnum & _ & Hall & _ & Hev & _) _].
  - vm_compute. reflexivity.
  - assert (counts = [3; 5]%Z) as Hc.
    { vm_compute in Hask. by injection Hask as <- _. }
    assert (old_N = 2%nat) as HN.
    { vm_compute in Hask. injection Hask as _ <-.
      vm_compute in Hnum. by injection Hnum as <-. }
    exists counts, old_N, w2, (r.2).1.
    split_and!; [exact Hc | exact HN | exact Hall |].
    apply (Hev 1%nat 5%Z). by rewrite Hc.
Defined.

(** * Further properties of the code *)

Lemma bind_raise {S A B} (m : StateExn S A) (k : A -> StateExn S B) s e s' :
  m s = (Raise e, s') -> (m ≫= k) s = (Raise e, s').
Proof. intros H. unfold mbind, StateExn_bind. by rewrite H. Qed.

(** ** Ensemble.__init__ and Ensemble.get_num_ptcls *)

Lemma init_run {U} (num_ptcls : Z) (w : world U) :
  (0 <= num_ptcls)%Z ->
  init num_ptcls w =
    (Ok tt,
     World ((w_heap w ++ [np_zeros [Z.to_nat num_ptcls; 3%nat]])
              ++ [np_zeros [Z.to_nat num_ptcls; 3%nat]])
           (Ensemble.mk (length (w_heap w))
              (length (w_heap w ++ [np_zeros [Z.to_nat num_ptcls; 3%nat]]))
              ∅ ∅)
           (w_user w)).
Proof. intros Hn. unfold init. by rewrite decide_False by lia. Qed.

(** X1: for [0 <= num_ptcls], [Ensemble(num_ptcls)] makes a well-formed
    ensemble whose particle count reads back as [num_ptcls], with zero
    positions and velocities in two new arrays and with empty property
    maps; every array that was in the store before is untouched. *)
Theorem init_makes_ensemble {U} (num_ptcls : Z) (w : world U) :
  (0 <= num_ptcls)%Z ->
  exists w',
    init num_ptcls w = (Ok tt, w') /\
    wf_ensemble w' (Z.to_nat num_ptcls) /\
    get_num_ptcls w' = (Ok (Z.to_nat num_ptcls), w') /\
    positions w' = Some (np_zeros [Z.to_nat num_ptcls; 3%nat]) /\
    velocities w' = Some (np_zeros [Z.to_nat num_ptcls; 3%nat]) /\
    Ensemble.ensemble_properties (w_ens w') = ∅ /\
    Ensemble.particle_properties (w_ens w') = ∅ /\
    w_heap w !! Ensemble.x (w_ens w') = None /\
    w_heap w !! Ensemble.v (w_ens w') = None /\
    (forall l a, w_heap w !! l = Some a -> w_heap w' !! l = Some a).
Proof.
  intros Hn. destruct (init_wf num_ptcls w Hn) as (w' & E & Hwf & Px & Pv).
  pose proof (init_run num_ptcls w Hn) as E'. rewrite E in E'.
  injection E' as ->.
  eexists. split; [exact E|]. split; [exact Hwf|].
  split; [by apply get_num_ptcls_ok|]. split; [exact Px|]. split; [exact Pv|].
  simpl. split_and!; try done.
  - by apply lookup_ge_None_2.
  - apply lookup_ge_None_2. rewrite length_app. simpl. lia.
  - intros l a Hl.
    assert (l < length (w_heap w))%nat by (by eapply lookup_lt_Some).
    rewrite !lookup_app_l; [done | done | rewrite length_app; lia].
Qed.

Lemma init_makes_ensemble_witness :
  exists w',
    init 4 demo_world_p = (Ok tt, w') /\
    get_num_ptcls w' = (Ok 4%nat, w') /\
    w_heap w' !! 2%nat = Some demo_p.
Proof.
  destruct (init_makes_ensemble 4 demo_world_p)
    as (w' & E & _ & Hn & _ & _ & _ & _ & _ & _ & Hold).
  - lia.
  - exists w'. split_and!; [exact E | exact Hn |].
    apply Hold. reflexivity.
Defined.

(** ** Ensemble.set_particle_property: what it keeps *)

Lemma set_particle_property_run {U} (w : world U) (N : nat) (key : string)
    (prop : nat) (p : ndarray) :
  get_num_ptcls w = (Ok N, w) -> w_heap w !! prop = Some p ->
  shape0 p = Ok N ->
  set_particle_property key prop w =
    (Ok tt,
     World (w_heap w ++ [p])
           (Ensemble.set_particle_properties
              (<[key := length (w_heap w)]>
                 (Ensemble.particle_properties (w_ens w)))
              (w_ens w))
           (w_user w)).
Proof.
  intros HN Hp Hn. unfold set_particle_property.
  erewrite bind_ok by (apply load_ok, Hp).
  erewrite bind_ok by (unfold lift; by rewrite Hn).
  erewrite bind_ok by exact HN.
  rewrite decide_False by (intros ?; done).
  erewrite bind_ok by reflexivity. erewrite bind_ok by reflexivity.
  by rewrite np_copy_eq.
Qed.

Lemma set_particle_property_step {U} (w : world U) (N : nat) (key : string)
    (prop : nat) (p : ndarray) :
  wf_ensemble w N -> w_heap w !! prop = Some p -> shape0 p = Ok N ->
  exists w',
    set_particle_property key prop w = (Ok tt, w') /\
    wf_ensemble w' N /\
    positions w' = positions w /\ velocities w' = velocities w /\
    Ensemble.ensemble_properties (w_ens w')
      = Ensemble.ensemble_properties (w_ens w) /\
    particle_property w' key = Some p /\
    (forall key', key' <> key ->
                  particle_property w' key' = particle_property w key') /\
    (forall l a, w_heap w !! l = Some a -> w_heap w' !! l = Some a).
Proof.
  intros Hwf Hp Hn.
  destruct (set_particle_property_wf w N key prop p Hwf Hp Hn)
    as (w' & E & Hwf' & Hkey).
  pose proof (set_particle_property_run w N key prop p
                (get_num_ptcls_ok w N Hwf) Hp Hn) as E'.
  rewrite E in E'. injection E' as ->.
  pose proof Hwf as (_ & (ax & Hx & _) & (av & Hv & _) & Hpp).
  unfold positions, velocities in *.
  eexists. split; [exact E|]. split; [exact Hwf'|].
  unfold positions, velocities, particle_property in *. simpl in *.
  split_and!; try done.
  - rewrite lookup_app_l; [done | by eapply lookup_lt_Some].
  - rewrite lookup_app_l; [done | by eapply lookup_lt_Some].
  - intros key' Hne. rewrite lookup_insert_ne by done.
    destruct (Ensemble.particle_properties (w_ens w) !! key') as [l|] eqn:Hk;
      [|done].
    destruct (Hpp _ _ Hk) as (_ & _ & [a Ha]).
    rewrite lookup_app_l; [done | by eapply lookup_lt_Some].
  - intros l a Hl. rewrite lookup_app_l; [done | by eapply lookup_lt_Some].
Qed.

(** X2: on a well-formed ensemble of [N] particles and for a caller's array
    of leading length [N], [set_particle_property] returns and keeps the
    ensemble well-formed with [N] particles; positions, velocities, the
    ensemble properties, every other particle property and every array
    that was in the store (the caller's among them) are as before, and
    [key] reads back as the array given. *)
Theorem set_particle_property_keeps_ensemble {U} (w : world U) (N : nat)
    (key : string) (prop : nat) (p : ndarray) :
  wf_ensemble w N -> w_heap w !! prop = Some p -> shape0 p = Ok N ->
  exists w',
    set_particle_property key prop w = (Ok tt, w') /\
    wf_ensemble w' N /\
    get_num_ptcls w' = (Ok N, w') /\
    positions w' = positions w /\ velocities w' = velocities w /\
    Ensemble.ensemble_properties (w_ens w')
      = Ensemble.ensemble_properties (w_ens w) /\
    particle_property w' key = Some p /\
    (forall key', key' <> key ->
                  particle_property w' key' = particle_property w key') /\
    (forall l a, w_heap w !! l = Some a -> w_heap w' !! l = Some a).
Proof.
  intros Hwf Hp Hn.
  destruct (set_particle_property_step w N key prop p Hwf Hp Hn)
    as (w' & E & Hwf' & H).
  exists w'. split; [done|]. split; [done|].
  split; [by apply get_num_ptcls_ok | exact H].
Qed.

Lemma set_particle_property_keeps_ensemble_witness :
  exists w',
    set_particle_property "q" 2 demo_world_p = (Ok tt, w') /\
    get_num_ptcls w' = (Ok 2%nat, w') /\
    positions w' = Some demo_x /\
    particle_property w' "p" = Some demo_p /\
    particle_property w' "q" = Some demo_p.
Proof.
  destruct (set_particle_property_keeps_ensemble demo_world_p 2 "q" 2 demo_p)
    as (w' & E & _ & Hn & Px & _ & _ & Hq & Hother & _).
  - exact demo_world_p_wf.
  - reflexivity.
  - reflexivity.
  - exists w'. split_and!; [exact E | exact Hn | exact Px | | exact Hq].
    rewrite (Hother "p"); [reflexivity | discriminate].
Defined.

(** X3: setting a key twice leaves the second array under the key; setting
    two different keys leaves both arrays readable; and a call that fails
    the size check after a successful one raises and leaves the property
    of the successful call in place. *)
Theorem set_particle_property_overwrite {U} (w : world U) (N : nat)
    (key key2 : string) (prop1 prop2 : nat) (p1 p2 : ndarray) :
  wf_ensemble w N ->
  w_heap w !! prop1 = Some p1 -> shape0 p1 = Ok N ->
  w_heap w !! prop2 = Some p2 -> shape0 p2 = Ok N ->
  (exists w2,
      (set_particle_property key prop1;; set_particle_property key prop2) w
        = (Ok tt, w2) /\
      wf_ensemble w2 N /\ particle_property w2 key = Some p2) /\
  (key2 <> key ->
   exists w2,
     (set_particle_property key prop1;; set_particle_property key2 prop2) w
       = (Ok tt, w2) /\
     wf_ensemble w2 N /\
     particle_property w2 key = Some p1 /\
     particle_property w2 key2 = Some p2) /\
  (forall (bad : nat) (pb : ndarray) (n : nat),
     w_heap w !! bad = Some pb -> shape0 pb = Ok n -> n <> N ->
     exists w1,
       (set_particle_property key prop1;; set_particle_property key bad) w
         = (Raise (RuntimeError
                     "Size of property array does not match number of particles."),
            w1) /\
       wf_ensemble w1 N /\ particle_property w1 key = Some p1).
Proof.
  intros Hwf H1 S1 H2 S2.
  destruct (set_particle_property_step w N key prop1 p1 Hwf H1 S1)
    as (w1 & E1 & Hwf1 & _ & _ & _ & K1 & _ & Hold1).
  split_and!.
  - destruct (set_particle_property_step w1 N key prop2 p2 Hwf1
                (Hold1 _ _ H2) S2) as (w2 & E2 & Hwf2 & _ & _ & _ & K2 & _).
    exists w2. split_and!; [|done..]. by erewrite bind_ok by exact E1.
  - intros Hne.
    destruct (set_particle_property_step w1 N key2 prop2 p2 Hwf1
                (Hold1 _ _ H2) S2)
      as (w2 & E2 & Hwf2 & _ & _ & _ & K2 & Hother & _).
    exists w2. split_and!; [|done| |done].
    + by erewrite bind_ok by exact E1.
    + rewrite Hother; [done | by intros ->].
  - intros bad pb n Hb Sb Hn. exists w1. split_and!; [|done..].
    erewrite bind_ok by exact E1. unfold set_particle_property.
    erewrite bind_ok by (apply load_ok, (Hold1 _ _ Hb)).
    erewrite bind_ok by (unfold lift; by rewrite Sb).
    erewrite bind_ok by (by apply get_num_ptcls_ok).
    by rewrite decide_True.
Qed.

Lemma set_particle_property_overwrite_witness :
  exists w2,
    (set_particle_property "p" 2;; set_particle_property "p" 2) demo_world_p
      = (Ok tt, w2) /\
    particle_property w2 "p" = Some demo_p.
Proof.
  destruct (set_particle_property_overwrite demo_world_p 2 "p" "q" 2 2
              demo_p demo_p) as [(w2 & E & _ & H) _].
  - exact demo_world_p_wf.
  - reflexivity.
  - reflexivity.
  - reflexivity.
  - reflexivity.
  - exists w2. split; [exact E | exact H].
Defined.

(** ** Ensemble.resize: properties, errors, composition *)

(** X4: on a well-formed ensemble and for [0 <= new_size], [resize] leaves
    every particle property, whatever its shape was, as a well-formed
    one-dimensional array of [new_size] elements.  A property that was
    one-dimensional keeps its entries below the old and the new length,
    and its new entries are zero.  (Which elements of a property of two or
    more dimensions come first depends on its memory layout and is not
    stated here.) *)
Theorem resize_particle_properties {U} (w : world U) (N : nat)
    (new_size : Z) (key : string) (a : ndarray) :
  wf_ensemble w N -> (0 <= new_size)%Z ->
  particle_property w key = Some a ->
  exists w' a',
    resize new_size w = (Ok tt, w') /\
    particle_property w' key = Some a' /\
    nd_shape a' = [Z.to_nat new_size] /\ nd_wf a' /\
    (forall n0, nd_shape a = [n0] -> nd_wf a ->
       (forall i, (i < n0)%nat -> (i < Z.to_nat new_size)%nat ->
                  nd_getitem a' i = nd_getitem a i) /\
       (forall i, (n0 <= i)%nat -> (i < Z.to_nat new_size)%nat ->
                  nd_getitem a' i = Ok (np_zeros []))).
Proof.
  intros Hwf Hn Ha.
  destruct (resize_property w N new_size key a Hwf Hn Ha) as (w' & E & Hp).
  exists w', (nd_resize [Z.to_nat new_size] a).
  split_and!; [done | done | done | apply nd_resize_wf |].
  intros n0 Hs Hw. split; intros i H1 H2.
  - by eapply getitem_resize_old.
  - by eapply getitem_resize_new.
Qed.

Lemma resize_particle_properties_witness :
  exists w' a',
    resize 3 demo_world_mass = (Ok tt, w') /\
    particle_property w' "mass" = Some a' /\
    nd_getitem a' 1 = nd_getitem demo_mass 1 /\
    nd_getitem a' 2 = Ok (np_zeros []).
Proof.
  destruct (resize_particle_properties demo_world_mass 2 3 "mass" demo_mass)
    as (w' & a' & E & Hp & _ & _ & H1d).
  - exact demo_world_mass_wf.
  - lia.
  - reflexivity.
  - destruct (H1d 2%nat eq_refl eq_refl) as [Hold Hnew].
    exists w', a'. split_and!; [exact E | exact Hp | |].
    + apply Hold; simpl; lia.
    + apply Hnew; simpl; lia.
Defined.

Lemma resize_raises {U} (w : world U) (N : nat) (new_size : Z) :
  wf_ensemble w N -> (new_size < 0)%Z ->
  resize new_size w = (Raise ValueError, w).
Proof.
  intros (_ & (ax & Hx & Hsx & _) & _) Hn. unfold resize.
  erewrite bind_ok by reflexivity.
  erewrite bind_ok by (apply load_ok, Hx). rewrite Hsx.
  unfold resize_at. by rewrite decide_True.
Qed.

(** X5: on a well-formed ensemble a negative [new_size] makes [resize]
    raise [ValueError] at the first array: positions, velocities and
    particle properties are all as before, and so is the particle
    count. *)
Theorem resize_negative {U} (w : world U) (N : nat) (new_size : Z) :
  wf_ensemble w N -> (new_size < 0)%Z ->
  exists w',
    resize new_size w = (Raise ValueError, w') /\ w' = w /\
    get_num_ptcls w' = (Ok N, w').
Proof.
  intros Hwf Hn. exists w. split_and!; [by eapply resize_raises | done |].
  by apply get_num_ptcls_ok.
Qed.

Lemma resize_negative_witness :
  exists w',
    resize (-1) demo_world_p = (Raise ValueError, w') /\ w' = demo_world_p.
Proof.
  destruct (resize_negative demo_world_p 2 (-1)) as (w' & E & Hw & _).
  - exact demo_world_p_wf.
  - lia.
  - exists w'. split; [exact E | exact Hw].
Defined.

(** The arrays that [resize] leaves alone: all but [x], [v] and the arrays
    of the particle properties. *)
Lemma resize_frame {U} (w : world U) (N : nat) (n : Z) :
  wf_ensemble w N -> (0 <= n)%Z ->
  exists w',
    resize n w = (Ok tt, w') /\
    w_user w' = w_user w /\
    length (w_heap w') = length (w_heap w) /\
    forall l,
      l <> Ensemble.x (w_ens w) -> l <> Ensemble.v (w_ens w) ->
      (forall key, Ensemble.particle_properties (w_ens w) !! key <> Some l) ->
      w_heap w' !! l = w_heap w !! l.
Proof.
  intros (Hxv & (ax & Hx & Hsx & Hwx) & (av & Hv & Hsv & Hwv) & Hpp) Hn.
  unfold positions, velocities in *.
  set (lx := Ensemble.x (w_ens w)) in *.
  set (lv := Ensemble.v (w_ens w)) in *.
  set (w1 := set_heap (<[lx := nd_resize [Z.to_nat n; 3%nat] ax]> (w_heap w)) w).
  set (w2 := set_heap (<[lv := nd_resize [Z.to_nat n; 3%nat] av]> (w_heap w1)) w1).
  destruct (resize_props_spec n
              (map_to_list (Ensemble.particle_properties (w_ens w))) w2 Hn)
    as (h' & E & L & Hout & _).
  { intros l Hl. apply list_elem_of_fmap in Hl as ([key l'] & -> & Hl).
    apply elem_of_map_to_list in Hl. destruct (Hpp _ _ Hl) as (H1 & H2 & H3).
    simpl. fold lx lv in H1, H2. by rewrite !list_lookup_insert_ne. }
  exists (set_heap h' w2). split_and!.
  - unfold resize. erewrite bind_ok by reflexivity. fold lx.
    erewrite bind_ok by (apply load_ok, Hx). rewrite Hsx.
    erewrite bind_ok by (by apply resize_at_ok). fold w1.
    erewrite bind_ok by reflexivity.
    erewrite bind_ok.
    2: { apply resize_at_ok; [done|]. simpl.
         rewrite list_lookup_insert_ne by done. exact Hv. }
    fold lv w2. erewrite bind_ok by reflexivity. exact E.
  - done.
  - simpl. rewrite L. simpl. by rewrite !length_insert.
  - intros l H1 H2 H3. simpl. rewrite Hout.
    + simpl. by rewrite !list_lookup_insert_ne.
    + intros Hl. apply list_elem_of_fmap in Hl as ([key l'] & -> & Hl).
      apply elem_of_map_to_list in Hl. by apply (H3 key).
Qed.

(** X6: shrinking discards: on an ensemble of [N] particles and for
    [0 <= M <= N], [resize(M)] followed by [resize(N)] gives [N] particles
    again, with the rows below [M] of [x] and [v] as they were and the
    rows from [M] on zero. *)
Theorem resize_shrink_discards {U} (w : world U) (N : nat) (M : Z)
    (ax av : ndarray) :
  wf_ensemble w N -> (0 <= M <= Z.of_nat N)%Z ->
  positions w = Some ax -> velocities w = Some av ->
  exists w2 ax2 av2,
    (resize M;; resize (Z.of_nat N)) w = (Ok tt, w2) /\
    positions w2 = Some ax2 /\ velocities w2 = Some av2 /\
    get_num_ptcls w2 = (Ok N, w2) /\
    (forall i, (i < Z.to_nat M)%nat ->
               nd_getitem ax2 i = nd_getitem ax i /\
               nd_getitem av2 i = nd_getitem av i) /\
    (forall i, (Z.to_nat M <= i)%nat -> (i < N)%nat ->
               nd_getitem ax2 i = Ok (np_zeros [3%nat]) /\
               nd_getitem av2 i = Ok (np_zeros [3%nat])).
Proof.
  intros Hwf HM Ex Ev.
  destruct (wf_ensemble_data w N ax av Hwf Ex Ev) as (Hsx & Hsv & _ & _).
  pose proof Hwf as (_ & (ax0 & Hx & _ & Hwx) & (av0 & Hv & _ & Hwv) & _).
  assert (ax0 = ax) as -> by congruence.
  assert (av0 = av) as -> by congruence.
  destruct (resize_ok w N M ax av)
    as (w1 & E1 & Hwf1 & _ & Px1 & Pv1 & _); [done | lia | done | done |].
  destruct (resize_ok w1 (Z.to_nat M) (Z.of_nat N) _ _ Hwf1 ltac:(lia) Px1 Pv1)
    as (w2 & E2 & Hwf2 & _ & Px2 & Pv2 & _).
  rewrite Nat2Z.id in Hwf2, Px2, Pv2.
  eexists w2, _, _. split_and!; [|done|done| | |].
  - by erewrite bind_ok by exact E1.
  - by apply get_num_ptcls_ok.
  - intros i Hi. split.
    + erewrite getitem_resize_old;
        [eapply getitem_resize_old; [done | done | lia | done]
        | reflexivity | apply nd_resize_wf | done | lia].
    + erewrite getitem_resize_old;
        [eapply getitem_resize_old; [done | done | lia | done]
        | reflexivity | apply nd_resize_wf | done | lia].
  - intros i H1 H2. split.
    + eapply getitem_resize_new;
        [reflexivity | apply nd_resize_wf | done | done].
    + eapply getitem_resize_new;
        [reflexivity | apply nd_resize_wf | done | done].
Qed.

Lemma resize_shrink_discards_witness :
  exists w2 ax2 av2,
    (resize 1;; resize 2) demo_world = (Ok tt, w2) /\
    positions w2 = Some ax2 /\ velocities w2 = Some av2 /\
    nd_getitem ax2 0 = nd_getitem demo_x 0 /\
    nd_getitem ax2 1 = Ok (np_zeros [3%nat]).
Proof.
  destruct (resize_shrink_discards demo_world 2 1 demo_x demo_v)
    as (w2 & ax2 & av2 & E & Px & Pv & _ & Hold & Hnew).
  - exact demo_world_wf.
  - lia.
  - reflexivity.
  - reflexivity.
  - exists w2, ax2, av2. split_and!; [exact E | exact Px | exact Pv | |].
    + apply (Hold 0%nat). simpl. lia.
    + apply (Hnew 1%nat); simpl; lia.
Defined.

(** X7: on a well-formed ensemble and for [0 <= new_size], [resize]
    returns a well-formed ensemble whose particle count reads back as
    [new_size]; the ensemble refers to the same array objects under the
    same keys, the store has no new array, and an array the ensemble does
    not refer to (a caller's array) is untouched.  Resizing to the current
    size leaves [x] and [v] as they are. *)
Theorem resize_sets_count {U} (w : world U) (N : nat) (new_size : Z)
    (ax av : ndarray) :
  wf_ensemble w N -> (0 <= new_size)%Z ->
  positions w = Some ax -> velocities w = Some av ->
  exists w',
    resize new_size w = (Ok tt, w') /\
    wf_ensemble w' (Z.to_nat new_size) /\
    get_num_ptcls w' = (Ok (Z.to_nat new_size), w') /\
    w_ens w' = w_ens w /\ w_user w' = w_user w /\
    length (w_heap w') = length (w_heap w) /\
    (forall l,
       l <> Ensemble.x (w_ens w) -> l <> Ensemble.v (w_ens w) ->
       (forall key, Ensemble.particle_properties (w_ens w) !! key <> Some l) ->
       w_heap w' !! l = w_heap w !! l) /\
    (new_size = Z.of_nat N ->
     positions w' = Some ax /\ velocities w' = Some av).
Proof.
  intros Hwf Hn Ex Ev.
  destruct (wf_ensemble_data w N ax av Hwf Ex Ev) as (Hsx & Hsv & _ & _).
  pose proof Hwf as (_ & (ax0 & Hx & _ & Hwx) & (av0 & Hv & _ & Hwv) & _).
  assert (ax0 = ax) as -> by congruence.
  assert (av0 = av) as -> by congruence.
  destruct (resize_ok w N new_size ax av)
    as (w' & E & Hwf' & He & Px & Pv & _); [done..|].
  destruct (resize_frame w N new_size Hwf Hn) as (w'' & E' & Hu & HL & Hfr).
  rewrite E in E'. injection E' as <-.
  exists w'. split_and!; try done.
  - by apply get_num_ptcls_ok.
  - intros ->. rewrite Nat2Z.id in Px, Pv.
    rewrite <- Hsx, nd_resize_same in Px by done.
    by rewrite <- Hsv, nd_resize_same in Pv by done.
Qed.

Lemma resize_sets_count_witness :
  exists w',
    resize 5 demo_world_p = (Ok tt, w') /\
    get_num_ptcls w' = (Ok 5%nat, w') /\
    length (w_heap w') = 3%nat.
Proof.
  destruct (resize_sets_count demo_world_p 2 5 demo_x demo_v)
    as (w' & E & _ & Hn & _ & _ & HL & _).
  - exact demo_world_p_wf.
  - lia.
  - reflexivity.
  - reflexivity.
  - exists w'. split_and!; [exact E | exact Hn | exact HL].
Defined.

(** ** produce_ptcls: returning, the base class, a negative total *)

Lemma query_sources_run {U} (dt : Qc) (sources : list (Source.t U))
    (i : nat) (acc : list Z) (tot : Z) (w : world U) (log : list event)
    (counts : list Z) (w1 : world U) :
  ask_all dt sources w = (Ok counts, w1) ->
  query_sources dt i sources acc tot (w, log)
    = (Ok (acc ++ counts, (tot + sum_Z counts)%Z),
       (w1, log ++ num_events dt i counts)).
Proof.
  revert i acc tot w log counts.
  induction sources as [|s rest IH]; intros i acc tot w log counts H.
  - simpl in H. injection H as <- <-. simpl.
    by rewrite !app_nil_r, Z.add_0_r.
  - simpl in H. apply bind_inv in H as (n & w2 & Hn & H).
    apply bind_inv in H as (ns & w3 & Hns & H). injection H as <- <-.
    simpl. erewrite bind_ok by (by apply run_ok).
    erewrite bind_ok by reflexivity.
    rewrite (IH _ _ _ _ _ _ Hns). simpl.
    rewrite <- !app_assoc. simpl. do 3 f_equal. lia.
Qed.

(** The second loop runs the calls of step 3 and records them. *)
Lemma insert_ptcls_run {U} (dt : Qc) (sources : list (Source.t U))
    (i : nat) (pre counts : list Z) (start : Z) (w w' : world U)
    (log : list event) :
  length pre = i -> length counts = length sources ->
  produce_all dt start sources counts w = (Ok tt, w') ->
  insert_ptcls dt i sources (pre ++ counts) start (w, log)
    = (Ok tt, (w', log ++ produce_events dt i start counts)).
Proof.
  revert i pre counts start w log.
  induction sources as [|s rest IH]; intros i pre counts start w log Hi HL H.
  - destruct counts; [|done]. simpl in H. injection H as <-.
    simpl. by rewrite app_nil_r.
  - destruct counts as [|n counts]; [done|]. simpl in H.
    apply bind_inv in H as ([] & w1 & Hp & H). simpl.
    rewrite lookup_app_r by lia.
    replace (i - length pre)%nat with 0%nat by lia. simpl.
    rewrite ret_bind. erewrite bind_ok by reflexivity.
    erewrite bind_ok by (by apply run_ok).
    replace (pre ++ n :: counts) with ((pre ++ [n]) ++ counts)
      by (by rewrite <- app_assoc).
    rewrite (IH (S i) (pre ++ [n]) counts (start + n)%Z w1 _); [| |simpl in HL; lia|done].
    + by rewrite <- app_assoc.
    + rewrite length_app. simpl. lia.
Qed.

Lemma grants_kept_run {U} (dt : Qc) (sources : list (Source.t U)) :
  forall (counts : list Z) (cursor : Z) (size : nat) (w : world U),
    grants_kept dt cursor sources counts size w -> wf_ensemble w size ->
    length counts = length sources /\
    exists w', produce_all dt cursor sources counts w = (Ok tt, w') /\
               wf_ensemble w' size.
Proof.
  induction sources as [|s rest IH]; intros [|n counts] cursor size w H Hwf;
    simpl in H; try done.
  - split; [done|]. by exists w.
  - destruct H as (w1 & Ep & Hwf1 & H).
    destruct (IH counts _ size w1 H Hwf1) as (HL & w' & E & Hwf').
    split; [simpl; lia|]. exists w'. split; [|done].
    simpl. by erewrite bind_ok by exact Ep.
Qed.

(** X8: [produce_ptcls] asks of the sources only what its own calls need.
    If the sources, asked once each in list order on an ensemble of [N]
    particles, answer counts whose sum with [N] is not negative and leave
    the ensemble as it is, and if each source, told in turn to produce
    into the range granted to it in the resized ensemble, returns and
    leaves the arrays at their size, then [produce_ptcls] returns with
    exactly those calls, and the ensemble is well-formed with [N] plus the
    sum of the counts particles.  Nothing is assumed of a source for a
    range it is not granted. *)
Theorem produce_ptcls_grows {U} (dt : Qc) (sources : list (Source.t U))
    (w w1 : world U) (N : nat) (counts : list Z) (log : list event) :
  ask_all dt sources w = (Ok counts, w1) -> wf_ensemble w1 N ->
  (0 <= Z.of_nat N + sum_Z counts)%Z ->
  (forall w2,
     resize (Z.of_nat N + sum_Z counts) w1 = (Ok tt, w2) ->
     grants_kept dt (Z.of_nat N) sources counts
                 (Z.to_nat (Z.of_nat N + sum_Z counts)) w2) ->
  exists w',
    produce_ptcls dt sources (w, log)
      = (Ok tt,
         (w', log ++ num_events dt 0 counts
                  ++ [CallResize (Z.of_nat N + sum_Z counts)]
                  ++ produce_events dt 0 (Z.of_nat N) counts)) /\
    wf_ensemble w' (Z.to_nat (Z.of_nat N + sum_Z counts)) /\
    get_num_ptcls w'
      = (Ok (Z.to_nat (Z.of_nat N + sum_Z counts)), w').
Proof.
  intros Eask Hwf1 Hsum Hgrant.
  pose proof Hwf1 as (_ & (ax & Hx & _) & (av & Hv & _) & _).
  destruct (resize_ok w1 N (Z.of_nat N + sum_Z counts) ax av)
    as (w2 & Er & Hwf2 & _); [done | lia | done | done |].
  destruct (grants_kept_run dt sources counts _ _ w2 (Hgrant w2 Er) Hwf2)
    as (HL & w' & Eall & Hwf').
  exists w'. split_and!; [|done|by apply get_num_ptcls_ok].
  unfold produce_ptcls.
  erewrite bind_ok by (by apply (query_sources_run dt sources 0 [] 0%Z)).
  cbv beta iota.
  erewrite bind_ok by (by apply run_ok, get_num_ptcls_ok).
  erewrite bind_ok by (by apply run_ok, get_num_ptcls_ok).
  erewrite bind_ok by reflexivity. rewrite Z.add_0_l.
  erewrite bind_ok by (by apply run_ok).
  rewrite (insert_ptcls_run dt sources 0 [] counts (Z.of_nat N) w2 w');
    [|done|done|done].
  cbn [snd]. by rewrite <- !app_assoc.
Qed.

Lemma produce_ptcls_grows_witness :
  exists w',
    produce_ptcls (qz 1) [demo_writer (qz 7); demo_writer (qz 9)]
                  (demo_world_src, [])
      = (Ok tt,
         (w', [] ++ num_events (qz 1) 0 [3; 5]%Z
                 ++ [CallResize (Z.of_nat 2 + sum_Z [3; 5]%Z)]
                 ++ produce_events (qz 1) 0 (Z.of_nat 2) [3; 5]%Z)) /\
    get_num_ptcls w'
      = (Ok (Z.to_nat (Z.of_nat 2 + sum_Z [3; 5]%Z)), w').
Proof.
  destruct (produce_ptcls_grows (qz 1)
              [demo_writer (qz 7); demo_writer (qz 9)]
              demo_world_src
              (World [demo_x; demo_v] (Ensemble.mk 0 1 ∅ ∅) 2%nat)
              2 [3; 5]%Z [])
    as (w' & E & _ & Hn).
  - reflexivity.
  - unfold wf_ensemble.
    split_and!; [done | by exists demo_x | by exists demo_v |].
    intros key l H. simpl in H. by rewrite lookup_empty in H.
  - simpl. lia.
  - intros w2 Er. vm_compute in Er. injection Er as <-.
    assert (forall (h : list ndarray) (u : nat) (ax av : ndarray),
              h = [ax; av] ->
              nd_shape ax = [10; 3]%nat -> nd_wf ax ->
              nd_shape av = [10; 3]%nat -> nd_wf av ->
              wf_ensemble (World h (Ensemble.mk 0 1 ∅ ∅) u) 10) as Hwf.
    { intros h u ax av -> Hsx Hwx Hsv Hwv. unfold wf_ensemble.
      split_and!; [done | by exists ax | by exists av |].
      intros key l H. simpl in H. by rewrite lookup_empty in H. }
    eexists. split; [vm_compute; reflexivity|].
    split; [by eapply Hwf|].
    eexists. split; [vm_compute; reflexivity|].
    split; [by eapply Hwf|]. exact I.
  - exists w'. split; [exact E | exact Hn].
Defined.

Lemma ask_all_base {U} (dt : Qc) (k : nat) (w : world U) :
  ask_all dt (replicate k Source.base) w = (Ok (replicate k 0%Z), w).
Proof.
  induction k as [|k IH]; [done|]. simpl.
  rewrite ret_bind. by erewrite bind_ok by exact IH.
Qed.

Lemma insert_ptcls_base {U} (dt : Qc) (k i m : nat) (start : Z)
    (w : world U) (log : list event) :
  (i + k <= m)%nat ->
  insert_ptcls dt i (replicate k Source.base) (replicate m 0%Z) start (w, log)
    = (Ok tt, (w, log ++ produce_events dt i start (replicate k 0%Z))).
Proof.
  revert i log. induction k as [|k IH]; intros i log Hm; simpl.
  - by rewrite app_nil_r.
  - rewrite lookup_replicate_2 by lia. rewrite ret_bind.
    erewrite bind_ok by reflexivity.
    erewrite bind_ok by (by apply run_ok).
    rewrite Z.add_0_r. rewrite IH by lia. by rewrite <- app_assoc.
Qed.

Lemma sum_Z_zeros (k : nat) : sum_Z (replicate k 0%Z) = 0%Z.
Proof. induction k as [|k IH]; simpl; lia. Qed.

(** X9: with sources of the base class [Source] only (none at all
    included), [produce_ptcls] on an ensemble of [N] particles returns
    after asking each source (answer 0), one [resize] to [N] and one
    [produce_ptcls] per source on the empty range [[N, N)]; the ensemble
    still has [N] particles and [x] and [v] are as they were. *)
Theorem produce_ptcls_base_sources {U} (dt : Qc) (k : nat) (w : world U)
    (N : nat) (log : list event) (ax av : ndarray) :
  wf_ensemble w N -> positions w = Some ax -> velocities w = Some av ->
  exists w',
    produce_ptcls dt (replicate k Source.base) (w, log)
      = (Ok tt,
         (w', log ++ num_events dt 0 (replicate k 0%Z)
                  ++ [CallResize (Z.of_nat N)]
                  ++ produce_events dt 0 (Z.of_nat N) (replicate k 0%Z))) /\
    wf_ensemble w' N /\
    positions w' = Some ax /\ velocities w' = Some av.
Proof.
  intros Hwf Ex Ev.
  destruct (wf_ensemble_data w N ax av Hwf Ex Ev) as (Hsx & Hsv & _ & _).
  pose proof Hwf as (_ & (ax0 & Hx & _ & Hwx) & (av0 & Hv & _ & Hwv) & _).
  assert (ax0 = ax) as -> by congruence.
  assert (av0 = av) as -> by congruence.
  destruct (resize_ok w N (Z.of_nat N) ax av)
    as (w' & E & Hwf' & _ & Px & Pv & _); [done | lia | done | done |].
  rewrite Nat2Z.id in Hwf', Px, Pv.
  rewrite <- Hsx, nd_resize_same in Px by done.
  rewrite <- Hsv, nd_resize_same in Pv by done.
  exists w'. split_and!; [|done..].
  unfold produce_ptcls.
  erewrite bind_ok
    by (apply (query_sources_run dt _ 0 [] 0%Z), ask_all_base).
  cbv beta iota.
  erewrite bind_ok by (by apply run_ok, get_num_ptcls_ok).
  erewrite bind_ok by (by apply run_ok, get_num_ptcls_ok).
  erewrite bind_ok by reflexivity.
  rewrite sum_Z_zeros, Z.add_0_l, Z.add_0_r.
  erewrite bind_ok by (by apply run_ok).
  simpl. rewrite (insert_ptcls_base dt k 0 k) by lia.
  by rewrite <- !app_assoc.
Qed.

Lemma produce_ptcls_base_sources_witness :
  exists w',
    produce_ptcls (qz 1) [Source.base] (demo_world, [])
      = (Ok tt,
         (w', [CallNum 0 (qz 1) 0; CallResize 2; CallProduce 0 (qz 1) 2 2])) /\
    positions w' = Some demo_x /\ velocities w' = Some demo_v.
Proof.
  destruct (produce_ptcls_base_sources (qz 1) 1 demo_world 2 [] demo_x demo_v)
    as (w' & E & _ & Px & Pv).
  - exact demo_world_wf.
  - reflexivity.
  - reflexivity.
  - exists w'. split_and!; [exact E | exact Px | exact Pv].
Defined.

(** X10: when the sources have been asked and the old particle count plus
    the sum of their answers is negative, [produce_ptcls] raises the
    [ValueError] of the resize: it has asked every source and called
    [resize], no source has been told to produce, and the world is the one
    the sources' answers left. *)
Theorem produce_ptcls_negative_total {U} (dt : Qc)
    (sources : list (Source.t U)) (w w1 : world U) (N : nat)
    (counts : list Z) (log : list event) :
  ask_all dt sources w = (Ok counts, w1) -> wf_ensemble w1 N ->
  (Z.of_nat N + sum_Z counts < 0)%Z ->
  produce_ptcls dt sources (w, log)
    = (Raise ValueError,
       (w1, log ++ num_events dt 0 counts
                ++ [CallResize (Z.of_nat N + sum_Z counts)])).
Proof.
  intros Hask Hwf Hneg. unfold produce_ptcls.
  erewrite bind_ok by (by apply (query_sources_run dt sources 0 [] 0%Z)).
  cbv beta iota.
  erewrite bind_ok by (by apply run_ok, get_num_ptcls_ok).
  erewrite bind_ok by (by apply run_ok, get_num_ptcls_ok).
  erewrite bind_ok by reflexivity. rewrite Z.add_0_l.
  unfold mbind at 1, StateExn_bind, run. simpl.
  rewrite (resize_raises w1 N) by done.
  by rewrite <- app_assoc.
Qed.

Lemma produce_ptcls_negative_total_witness :
  produce_ptcls (qz 1) [demo_source_neg] (demo_world, [])
  = (Raise ValueError, (demo_world, [CallNum 0 (qz 1) (-5); CallResize (-3)])).
Proof.
  apply (produce_ptcls_negative_total (qz 1) [demo_source_neg] demo_world
           demo_world 2 [(-5)%Z] []).
  - reflexivity.
  - exact demo_world_wf.
  - simpl. lia.
Defined.

(** ** drift_kick: what it keeps, how steps compose, how it fails *)

Lemma zip_add_cancel (a b : list Qc) (c c' : Qc) :
  length a = length b -> c + c' = 0 ->
  zip_with Qcplus (zip_with Qcplus a (map (Qcmult c) b)) (map (Qcmult c') b) = a.
Proof.
  intros HL Hc. revert b HL.
  induction a as [|p a IH]; intros [|q b] HL; try discriminate; [done|].
  simpl. f_equal; [|apply IH; simpl in HL; lia].
  transitivity (p + (c + c') * q); [ring | rewrite Hc; ring].
Qed.

Lemma zip_add_add (a b : list Qc) (c c' : Qc) :
  zip_with Qcplus (zip_with Qcplus a (map (Qcmult c) b)) (map (Qcmult c') b)
  = zip_with Qcplus a (map (Qcmult (c + c')) b).
Proof.
  revert b. induction a as [|p a IH]; intros [|q b]; try done.
  simpl. f_equal; [ring | apply IH].
Qed.

Lemma nd_eta (a : ndarray) (s : list nat) :
  nd_shape a = s -> NdArray s (nd_data a) = a.
Proof. intros <-. by destruct a. Qed.

(** The world after [drift_kick] with no forces. *)
Lemma drift_run {U} (w : world U) (N : nat) (dt : Qc) (ax av : ndarray) :
  wf_ensemble w N -> positions w = Some ax -> velocities w = Some av ->
  let w' := set_heap
              (<[Ensemble.x (w_ens w) :=
                   NdArray [N; 3%nat]
                     (zip_with Qcplus (nd_data ax)
                               (map (Qcmult dt) (nd_data av)))]> (w_heap w))
              w in
  drift_kick dt [] w = (Ok tt, w') /\ wf_ensemble w' N /\
  positions w' =
    Some (NdArray [N; 3%nat]
            (zip_with Qcplus (nd_data ax) (map (Qcmult dt) (nd_data av)))) /\
  velocities w' = Some av.
Proof.
  intros Hwf Ex Ev w'.
  destruct (wf_ensemble_data w N ax av Hwf Ex Ev) as (Hsx & Hsv & Lx & Lv).
  pose proof Hwf as (_ & _ & (av0 & Hv0 & _ & Hwv) & _).
  assert (av0 = av) as -> by congruence.
  destruct (wf_store_x w N
    (NdArray [N; 3%nat]
       (zip_with Qcplus (nd_data ax) (map (Qcmult dt) (nd_data av)))))
    as (H1 & H2 & H3); [done | done | |].
  { unfold nd_wf. simpl. rewrite length_zip_with, length_map. lia. }
  split_and!; [| done | done | by rewrite <- Ev].
  unfold drift_kick. rewrite decide_True by done.
  erewrite bind_ok by reflexivity. erewrite bind_ok by reflexivity.
  erewrite bind_ok by (apply load_ok, Ev).
  rewrite (iadd_at_ok w _ ax);
    [by rewrite Hsx | exact Ex | simpl; congruence | by apply nd_scale_wf].
Qed.

(** X11: two force-free steps compose: on an ensemble of [N] particles,
    [drift_kick(dt1, e, [])] followed by [drift_kick(dt2, e, [])] leaves
    [x + (dt1 + dt2) v] in [x] and [v] unchanged, as one step of
    [dt1 + dt2] does; with [dt2 = -dt1] the positions are back where they
    were. *)
Theorem drift_steps_compose {U} (w : world U) (N : nat) (dt1 dt2 : Qc)
    (ax av : ndarray) :
  wf_ensemble w N -> positions w = Some ax -> velocities w = Some av ->
  exists w2 w12,
    (drift_kick dt1 [];; drift_kick dt2 []) w = (Ok tt, w2) /\
    drift_kick (dt1 + dt2) [] w = (Ok tt, w12) /\
    positions w2 = positions w12 /\
    positions w2 =
      Some (NdArray [N; 3%nat]
              (zip_with Qcplus (nd_data ax)
                        (map (Qcmult (dt1 + dt2)) (nd_data av)))) /\
    velocities w2 = Some av /\ velocities w12 = Some av /\
    (dt1 + dt2 = 0 -> positions w2 = Some ax).
Proof.
  intros Hwf Ex Ev.
  destruct (wf_ensemble_data w N ax av Hwf Ex Ev) as (Hsx & Hsv & Lx & Lv).
  destruct (drift_run w N (dt1 + dt2) ax av Hwf Ex Ev)
    as (E12 & Hwf12 & Px12 & Pv12).
  set (w12 := set_heap _ w) in *. clearbody w12.
  destruct (drift_run w N dt1 ax av Hwf Ex Ev) as (E1 & Hwf1 & Px1 & Pv1).
  set (w1 := set_heap _ w) in *. clearbody w1.
  destruct (drift_run w1 N dt2 _ av Hwf1 Px1 Pv1) as (E2 & Hwf2 & Px2 & Pv2).
  set (w2 := set_heap _ w1) in *. clearbody w2.
  simpl in Px2. rewrite zip_add_add in Px2.
  eexists _, _. split_and!; [|exact E12| | | | |].
  - erewrite bind_ok by exact E1. exact E2.
  - by rewrite Px2, Px12.
  - exact Px2.
  - exact Pv2.
  - exact Pv12.
  - intros H0. rewrite Px2. f_equal. rewrite <- (nd_eta ax _ Hsx). f_equal.
    rewrite H0. clear -Lx Lv. revert Lx Lv. generalize (N * 3)%nat.
    generalize (nd_data ax) (nd_data av). intros a.
    induction a as [|p a IH]; intros [|q b] n Ha Hb; simpl in *; try done.
    + lia.
    + f_equal; [ring|]. destruct n; [lia|]. apply (IH b n); lia.
Qed.

Lemma drift_steps_compose_witness :
  exists w2,
    (drift_kick (qz 2) [];; drift_kick (- qz 2) []) demo_world = (Ok tt, w2) /\
    positions w2 = Some demo_x /\ velocities w2 = Some demo_v.
Proof.
  destruct (drift_steps_compose demo_world 2 (qz 2) (- qz 2) demo_x demo_v)
    as (w2 & w12 & E & _ & _ & _ & Pv & _ & Hback).
  - exact demo_world_wf.
  - reflexivity.
  - reflexivity.
  - exists w2. split_and!; [exact E | | exact Pv].
    apply Hback. apply Qcplus_opp_r.
Defined.

(** The world after [drift_kick] with forces and a scalar mass. *)
Lemma drift_kick_float_run {U} (w : world U) (N : nat) (dt m : Qc)
    (forces : list (force U)) (ax av f : ndarray) :
  forces <> [] -> wf_ensemble w N ->
  positions w = Some ax -> velocities w = Some av ->
  total_force forces (half_drifted dt ax av w)
    = (Ok f, half_drifted dt ax av w) ->
  nd_shape f = [N; 3%nat] -> nd_wf f ->
  Ensemble.ensemble_properties (w_ens w) !! "mass" = Some (PyFloat m) ->
  m <> 0 ->
  exists w',
    drift_kick dt forces w = (Ok tt, w') /\ wf_ensemble w' N /\
    velocities w' =
      Some (NdArray [N; 3%nat]
              (zip_with Qcplus (nd_data av)
                        (map (Qcmult (dt / m)) (nd_data f)))) /\
    positions w' =
      Some (NdArray [N; 3%nat]
              (zip_with Qcplus
                 (zip_with Qcplus (nd_data ax)
                           (map (Qcmult (half * dt)) (nd_data av)))
                 (map (Qcmult (half * dt))
                      (zip_with Qcplus (nd_data av)
                                (map (Qcmult (dt / m)) (nd_data f)))))) /\
    w_ens w' = w_ens w /\ w_user w' = w_user w /\
    length (w_heap w') = length (w_heap w) /\
    (forall l, l <> Ensemble.x (w_ens w) -> l <> Ensemble.v (w_ens w) ->
               w_heap w' !! l = w_heap w !! l).
Proof.
  intros Hne Hwf Ex Ev Hf Hsf Hwff Hmass Hm.
  destruct (wf_ensemble_data w N ax av Hwf Ex Ev) as (Hsx & Hsv & Lx & Lv).
  destruct (half_drift_ok w N dt ax av) as (E1 & Hwf1 & Px1 & Pv1); [done..|].
  set (w1 := half_drifted dt ax av w) in *.
  assert (w_ens w1 = w_ens w) as Hens by done.
  set (dv' := zip_with Qcplus (nd_data av) (map (Qcmult (dt / m)) (nd_data f))).
  assert (length (nd_data f) = (N * 3)%nat) as Lf.
  { unfold nd_wf in Hwff. rewrite Hsf in Hwff. simpl in Hwff. lia. }
  destruct (wf_store_v w1 N (NdArray [N; 3%nat] dv')) as (Hwf2 & Pv2 & Px2);
    [done | done | |].
  { unfold nd_wf, dv'. simpl. rewrite length_zip_with, length_map. lia. }
  set (w2 := set_heap (<[Ensemble.v (w_ens w1) := NdArray [N; 3%nat] dv']>
                         (w_heap w1)) w1) in *.
  assert (kick dt (PyFloat m) f w1 = (Ok tt, w2)) as E3
    by (by apply kick_float_ok).
  rewrite Px1 in Px2.
  destruct (half_drift_ok w2 N dt _ _ Hwf2 Px2 Pv2) as (E4 & Hwf3 & Px3 & Pv3).
  eexists. split_and!; [|exact Hwf3|exact Pv3|exact Px3|done|done| |].
  - rewrite drift_kick_steps by done. unfold drift_kick_in_steps.
    erewrite bind_ok by exact E1. erewrite bind_ok by exact Hf.
    erewrite bind_ok by reflexivity.
    erewrite bind_ok.
    2: { unfold lift, spec_resolve_mass. rewrite Hens, Hmass. reflexivity. }
    erewrite bind_ok by exact E3. exact E4.
  - simpl. by rewrite !length_insert.
  - intros l H1 H2. simpl. by rewrite !list_lookup_insert_ne.
Qed.

(** X12: with forces and a scalar mass that is not zero, [drift_kick] on an
    ensemble of [N] particles keeps the ensemble well-formed with [N]
    particles; the property maps, every particle property and every array
    other than [x] and [v] are as before, and no array is added. *)
Theorem drift_kick_keeps_ensemble {U} (w : world U) (N : nat) (dt m : Qc)
    (forces : list (force U)) (ax av f : ndarray) :
  forces <> [] -> wf_ensemble w N ->
  positions w = Some ax -> velocities w = Some av ->
  total_force forces (half_drifted dt ax av w)
    = (Ok f, half_drifted dt ax av w) ->
  nd_shape f = [N; 3%nat] -> nd_wf f ->
  Ensemble.ensemble_properties (w_ens w) !! "mass" = Some (PyFloat m) ->
  m <> 0 ->
  exists w',
    drift_kick dt forces w = (Ok tt, w') /\
    wf_ensemble w' N /\ get_num_ptcls w' = (Ok N, w') /\
    w_ens w' = w_ens w /\ w_user w' = w_user w /\
    length (w_heap w') = length (w_heap w) /\
    (forall key, particle_property w' key = particle_property w key) /\
    (forall l, l <> Ensemble.x (w_ens w) -> l <> Ensemble.v (w_ens w) ->
               w_heap w' !! l = w_heap w !! l).
Proof.
  intros Hne Hwf Ex Ev Hf Hsf Hwff Hmass Hm.
  destruct (drift_kick_float_run w N dt m forces ax av f)
    as (w' & E & Hwf' & _ & _ & He & Hu & HL & Hfr); [done..|].
  exists w'. split_and!; try done.
  - by apply get_num_ptcls_ok.
  - intros key. unfold particle_property. rewrite He.
    destruct (Ensemble.particle_properties (w_ens w) !! key) as [l|] eqn:Hk;
      [|done].
    destruct Hwf as (_ & _ & _ & Hpp). destruct (Hpp _ _ Hk) as (H1 & H2 & _).
    by apply Hfr.
Qed.

Lemma drift_kick_keeps_ensemble_witness :
  exists w',
    drift_kick (qz 2) [uniform_force (map qz [1; 0; 0]%Z)] demo_world_mass
      = (Ok tt, w') /\
    get_num_ptcls w' = (Ok 2%nat, w') /\
    particle_property w' "mass" = Some demo_mass.
Proof.
  destruct (drift_kick_keeps_ensemble demo_world_mass 2 (qz 2) (qz 2)
              [uniform_force (map qz [1; 0; 0]%Z)] demo_x demo_v
              (NdArray [2; 3]%nat
                 (zip_with Qcplus (replicate 6 0)
                           (concat (replicate 2 (map qz [1; 0; 0]%Z))))))
    as (w' & E & _ & Hn & _ & _ & _ & Hp & _).
  - discriminate.
  - exact demo_world_mass_wf.
  - reflexivity.
  - reflexivity.
  - reflexivity.
  - reflexivity.
  - reflexivity.
  - reflexivity.
  - discriminate.
  - exists w'. split_and!; [exact E | exact Hn |].
    rewrite Hp. reflexivity.
Defined.

(** X13: the step is time-reversible.  For forces whose sum depends on the
    positions only (and has the shape of the positions), and a scalar mass
    that is not zero, [drift_kick(dt, e, forces)] followed by
    [drift_kick(-dt, e, forces)] leaves positions and velocities as they
    were. *)
Theorem drift_kick_reversible {U} (w : world U) (N : nat) (dt m : Qc)
    (forces : list (force U)) (G : ndarray -> ndarray) (ax av : ndarray) :
  forces <> [] -> wf_ensemble w N ->
  positions w = Some ax -> velocities w = Some av ->
  Ensemble.ensemble_properties (w_ens w) !! "mass" = Some (PyFloat m) ->
  m <> 0 ->
  (forall (w1 : world U) (a : ndarray),
     wf_ensemble w1 N -> positions w1 = Some a ->
     total_force forces w1 = (Ok (G a), w1) /\
     nd_shape (G a) = [N; 3%nat] /\ nd_wf (G a)) ->
  exists w2,
    (drift_kick dt forces;; drift_kick (- dt) forces) w = (Ok tt, w2) /\
    wf_ensemble w2 N /\
    positions w2 = Some ax /\ velocities w2 = Some av.
Proof.
  intros Hne Hwf Ex Ev Hmass Hm HG.
  destruct (wf_ensemble_data w N ax av Hwf Ex Ev) as (Hsx & Hsv & Lx & Lv).
  (* forward *)
  destruct (half_drift_ok w N dt ax av Hwf Ex Ev) as (_ & Hwf1 & Px1 & _).
  destruct (HG _ _ Hwf1 Px1) as (Ef & Hsf & Hwff).
  set (dx1 := zip_with Qcplus (nd_data ax)
                       (map (Qcmult (half * dt)) (nd_data av))) in *.
  set (f := G (NdArray [N; 3%nat] dx1)) in *.
  assert (length (nd_data f) = (N * 3)%nat) as Lf.
  { unfold nd_wf in Hwff. rewrite Hsf in Hwff. simpl in Hwff. lia. }
  destruct (drift_kick_float_run w N dt m forces ax av f)
    as (w' & E & Hwf' & Pv' & Px' & He & _); [done..|].
  fold dx1 in Px'.
  set (dv' := zip_with Qcplus (nd_data av)
                       (map (Qcmult (dt / m)) (nd_data f))) in *.
  assert (length dx1 = (N * 3)%nat) as Lx1
    by (unfold dx1; rewrite length_zip_with, length_map; lia).
  assert (length dv' = (N * 3)%nat) as Lv'
    by (unfold dv'; rewrite length_zip_with, length_map; lia).
  (* backward *)
  destruct (half_drift_ok w' N (- dt) _ _ Hwf' Px' Pv')
    as (_ & Hwf1r & Px1r & _).
  simpl in Px1r.
  rewrite zip_add_cancel in Px1r by (first [ring | congruence]).
  destruct (HG _ _ Hwf1r Px1r) as (Efr & _ & _). fold f in Efr.
  destruct (drift_kick_float_run w' N (- dt) m forces _ _ f
              Hne Hwf' Px' Pv' Efr Hsf Hwff)
    as (w2 & E2 & Hwf2 & Pv2 & Px2 & _); [by rewrite He | done |].
  simpl in Pv2, Px2.
  assert (zip_with Qcplus dv' (map (Qcmult (- dt / m)) (nd_data f))
          = nd_data av) as Hvback.
  { unfold dv'. apply zip_add_cancel; [congruence | by field]. }
  rewrite Hvback in Pv2, Px2.
  rewrite zip_add_cancel in Px2 by (first [ring | congruence]).
  unfold dx1 in Px2.
  rewrite zip_add_cancel in Px2 by (first [ring | congruence]).
  exists w2. split_and!; [|done| |].
  - by erewrite bind_ok by exact E.
  - rewrite Px2. f_equal. by apply nd_eta.
  - rewrite Pv2. f_equal. by apply nd_eta.
Qed.

Lemma total_force_uniform {U} (w : world U) (N : nat) (F : vec) :
  wf_ensemble w N -> length F = 3%nat ->
  total_force [uniform_force F] w
  = (Ok (NdArray [N; 3%nat]
           (zip_with Qcplus (replicate (N * 3) 0) (concat (replicate N F)))),
     w).
Proof.
  intros Hwf HF.
  pose proof Hwf as (_ & _ & (av & Hv & Hsv & _) & _).
  unfold total_force. erewrite bind_ok by reflexivity.
  erewrite bind_ok by (apply load_ok, Hv). simpl.
  erewrite bind_ok by (by apply (uniform_force_ok F N)).
  erewrite bind_ok; [reflexivity|]. unfold lift.
  rewrite nd_iadd_same_shape.
  - unfold np_zeros_like, np_zeros. by rewrite Hsv.
  - unfold np_zeros_like, np_zeros, uniform_rows. simpl. by rewrite Hsv, HF.
  - apply uniform_rows_wf.
Qed.

Lemma drift_kick_reversible_witness :
  exists w2,
    (drift_kick (qz 2) [uniform_force (map qz [1; 0; 0]%Z)];;
     drift_kick (- qz 2) [uniform_force (map qz [1; 0; 0]%Z)]) demo_world_mass
      = (Ok tt, w2) /\
    positions w2 = Some demo_x /\ velocities w2 = Some demo_v.
Proof.
  destruct (drift_kick_reversible demo_world_mass 2 (qz 2) (qz 2)
              [uniform_force (map qz [1; 0; 0]%Z)]
              (fun _ => NdArray [2; 3]%nat
                 (zip_with Qcplus (replicate 6 0)
                           (concat (replicate 2 (map qz [1; 0; 0]%Z)))))
              demo_x demo_v)
    as (w2 & E & _ & Px & Pv).
  - discriminate.
  - exact demo_world_mass_wf.
  - reflexivity.
  - reflexivity.
  - reflexivity.
  - discriminate.
  - intros w1 a Hw1 Ha. split; [|split; reflexivity].
    apply (total_force_uniform w1 2 (map qz [1; 0; 0]%Z) Hw1). reflexivity.
  - exists w2. split_and!; [exact E | exact Px | exact Pv].
Defined.

(** X14: for a plain Python float [dt], with forces and the plain Python
    float [0.0] as the ensemble mass ([PyFloat 0]), [drift_kick] raises
    [ZeroDivisionError] at [dt / m]: the first half-drift has been applied
    to the positions, the velocities are untouched.  (With a
    [numpy.float64] for [dt] or for the mass the quotient is numpy's, an
    infinity or a NaN with a warning, and the call goes on; that case is
    not this one.) *)
Theorem drift_kick_zero_mass {U} (w : world U) (N : nat) (dt : Qc)
    (forces : list (force U)) (ax av f : ndarray) :
  forces <> [] -> wf_ensemble w N ->
  positions w = Some ax -> velocities w = Some av ->
  total_force forces (half_drifted dt ax av w)
    = (Ok f, half_drifted dt ax av w) ->
  Ensemble.ensemble_properties (w_ens w) !! "mass" = Some (PyFloat 0) ->
  drift_kick dt forces w
    = (Raise ZeroDivisionError, half_drifted dt ax av w) /\
  positions (half_drifted dt ax av w) =
    Some (NdArray [N; 3%nat]
            (zip_with Qcplus (nd_data ax)
                      (map (Qcmult (half * dt)) (nd_data av)))) /\
  velocities (half_drifted dt ax av w) = Some av.
Proof.
  intros Hne Hwf Ex Ev Hf Hmass.
  destruct (half_drift_ok w N dt ax av) as (E1 & _ & Px1 & Pv1); [done..|].
  split_and!; [|done..].
  rewrite drift_kick_steps by done. unfold drift_kick_in_steps.
  erewrite bind_ok by exact E1. erewrite bind_ok by exact Hf.
  erewrite bind_ok by reflexivity.
  erewrite bind_ok.
  2: { unfold lift, spec_resolve_mass.
       change (w_ens (half_drifted dt ax av w)) with (w_ens w).
       rewrite Hmass. reflexivity. }
  unfold kick. erewrite bind_raise; [reflexivity|].
  erewrite bind_ok by reflexivity.
  erewrite bind_raise; [reflexivity|].
  unfold kick_of. erewrite bind_raise; [reflexivity|].
  unfold lift, py_div. by rewrite decide_True.
Qed.

Lemma drift_kick_zero_mass_witness :
  drift_kick (qz 2) [uniform_force (map qz [1; 0; 0]%Z)] demo_world_mass0
  = (Raise ZeroDivisionError,
     half_drifted (qz 2) demo_x demo_v demo_world_mass0).
Proof.
  destruct (drift_kick_zero_mass demo_world_mass0 2 (qz 2)
              [uniform_force (map qz [1; 0; 0]%Z)] demo_x demo_v
              (NdArray [2; 3]%nat
                 (zip_with Qcplus (replicate 6 0)
                           (concat (replicate 2 (map qz [1; 0; 0]%Z))))))
    as (E & _).
  - discriminate.
  - unfold wf_ensemble.
    split_and!; [done | by exists demo_x | by exists demo_v |].
    intros key l H. simpl in H. by rewrite lookup_empty in H.
  - reflexivity.
  - reflexivity.
  - reflexivity.
  - reflexivity.
  - exact E.
Defined.

(** ** drift_kick with a per-particle mass *)

Lemma broadcast_shapes_1d (N : nat) :
  N <> 1%nat -> N <> 3%nat ->
  broadcast_shapes [N] [N; 3%nat] = Raise ValueError.
Proof.
  intros H1 H3. unfold broadcast_shapes, bcast_dim. simpl.
  rewrite (proj2 (Nat.eqb_neq N 3) H3), (proj2 (Nat.eqb_neq N 1) H1).
  simpl. by destruct N as [|[|N]].
Qed.

Lemma half_drifted_lookup {U} (w : world U) (dt : Qc) (ax av : ndarray)
    (l : nat) :
  l <> Ensemble.x (w_ens w) ->
  w_heap (half_drifted dt ax av w) !! l = w_heap w !! l.
Proof. intros H. unfold half_drifted. simpl. by rewrite list_lookup_insert_ne. Qed.

(** X15: a per-particle mass given as a one-dimensional array of [N]
    entries does not fit the force of shape [(N, 3)] unless [N] is 1 or 3:
    with no ensemble mass, [drift_kick] raises [ValueError] at
    [(dt / m) * f], after the first half-drift and before the velocities
    change. *)
Theorem drift_kick_particle_mass_1d {U} (w : world U) (N : nat) (dt : Qc)
    (forces : list (force U)) (ax av f : ndarray) (l : nat) (ms : list Qc) :
  forces <> [] -> wf_ensemble w N ->
  positions w = Some ax -> velocities w = Some av ->
  total_force forces (half_drifted dt ax av w)
    = (Ok f, half_drifted dt ax av w) ->
  nd_shape f = [N; 3%nat] ->
  Ensemble.ensemble_properties (w_ens w) !! "mass" = None ->
  Ensemble.particle_properties (w_ens w) !! "mass" = Some l ->
  w_heap w !! l = Some (NdArray [N] ms) ->
  Forall (fun y => y <> 0) ms ->
  N <> 1%nat -> N <> 3%nat ->
  drift_kick dt forces w = (Raise ValueError, half_drifted dt ax av w) /\
  velocities (half_drifted dt ax av w) = Some av.
Proof.
  intros Hne Hwf Ex Ev Hf Hsf He Hp Hl Hms H1 H3.
  destruct (half_drift_ok w N dt ax av) as (E1 & _ & _ & Pv1); [done..|].
  split; [|done].
  pose proof Hwf as (_ & _ & _ & Hpp). destruct (Hpp _ _ Hp) as (Hlx & _ & _).
  rewrite drift_kick_steps by done. unfold drift_kick_in_steps.
  erewrite bind_ok by exact E1. erewrite bind_ok by exact Hf.
  erewrite bind_ok by reflexivity.
  erewrite bind_ok.
  2: { unfold lift, spec_resolve_mass.
       change (w_ens (half_drifted dt ax av w)) with (w_ens w).
       rewrite He, Hp. reflexivity. }
  unfold kick. erewrite bind_raise; [reflexivity|].
  erewrite bind_ok by reflexivity.
  erewrite bind_raise; [reflexivity|].
  unfold kick_of.
  erewrite bind_ok by (apply load_ok; by rewrite half_drifted_lookup).
  erewrite bind_ok by (unfold lift, nd_rdiv; by rewrite decide_True).
  unfold lift, nd_mul. simpl. rewrite Hsf. by rewrite broadcast_shapes_1d.
Qed.

Lemma drift_kick_particle_mass_1d_witness :
  drift_kick (qz 2) [uniform_force (map qz [1; 0; 0]%Z)] demo_world_pmass
  = (Raise ValueError, half_drifted (qz 2) demo_x demo_v demo_world_pmass).
Proof.
  destruct (drift_kick_particle_mass_1d demo_world_pmass 2 (qz 2)
              [uniform_force (map qz [1; 0; 0]%Z)] demo_x demo_v
              (NdArray [2; 3]%nat
                 (zip_with Qcplus (replicate 6 0)
                           (concat (replicate 2 (map qz [1; 0; 0]%Z)))))
              2 (map qz [5; 5]%Z)) as [E _].
  - discriminate.
  - unfold wf_ensemble.
    split_and!; [done | by exists demo_x | by exists demo_v |].
    intros key l H. simpl in H. apply lookup_singleton_Some in H as [_ <-].
    split_and!; [done | done | by exists demo_mass].
  - reflexivity.
  - reflexivity.
  - reflexivity.
  - reflexivity.
  - reflexivity.
  - reflexivity.
  - reflexivity.
  - repeat constructor; discriminate.
  - lia.
  - lia.
  - exact E.
Defined.

Lemma broadcast_shapes_col (N : nat) :
  broadcast_shapes [N; 1%nat] [N; 3%nat] = Ok [N; 3%nat].
Proof. unfold broadcast_shapes, bcast_dim. simpl. by rewrite Nat.eqb_refl. Qed.

Lemma bcast_index_col (N k : nat) :
  (k < N * 3)%nat -> bcast_index [N; 1%nat] [N; 3%nat] k = (k / 3)%nat.
Proof.
  intros Hk. unfold bcast_index.
  change (pad_shape (length [N; 3%nat]) [N; 1%nat]) with [N; 1%nat].
  change (unravel [N; 3%nat] k) with [(k / 3)%nat; ((k mod 3) / 1)%nat].
  cbn [zip_with ravel size_of foldr Nat.eqb].
  destruct (Nat.eqb_spec N 1) as [->|_].
  - rewrite Nat.div_small by lia. lia.
  - lia.
Qed.

Lemma broadcast_to_col (N : nat) (d : list Qc) :
  broadcast_to [N; 3%nat] (NdArray [N; 1%nat] d)
  = Ok (map (fun k => default 0 (d !! (k / 3)%nat)) (seq 0 (N * 3))).
Proof.
  unfold broadcast_to, broadcastable. simpl. rewrite Nat.eqb_refl. simpl.
  f_equal. apply list_eq. intros k. rewrite !list_lookup_fmap.
  destruct (decide (k < N * 3)%nat) as [Hk|Hk].
  - rewrite (proj2 (lookup_seq 0 _ k k)) by done. simpl.
    by rewrite bcast_index_col.
  - by rewrite lookup_ge_None_2 by (rewrite length_seq; lia).
Qed.

(** X16: a per-particle mass given as a column, an array of shape [(N, 1)]
    with no zero entry, is applied particle by particle: with no ensemble
    mass, [drift_kick] returns, keeps the ensemble well-formed, and
    component [j] of particle [i] gets the velocity
    [v + (dt / m_i) f] and the position
    [x + 0.5 dt v + 0.5 dt (v + (dt / m_i) f)]. *)
Theorem drift_kick_particle_mass_column {U} (w : world U) (N : nat)
    (dt : Qc) (forces : list (force U)) (ax av f : ndarray) (l : nat)
    (ms : list Qc) :
  forces <> [] -> wf_ensemble w N ->
  positions w = Some ax -> velocities w = Some av ->
  total_force forces (half_drifted dt ax av w)
    = (Ok f, half_drifted dt ax av w) ->
  nd_shape f = [N; 3%nat] -> nd_wf f ->
  Ensemble.ensemble_properties (w_ens w) !! "mass" = None ->
  Ensemble.particle_properties (w_ens w) !! "mass" = Some l ->
  w_heap w !! l = Some (NdArray [N; 1%nat] ms) ->
  Forall (fun y => y <> 0) ms ->
  exists w' ax' av',
    drift_kick dt forces w = (Ok tt, w') /\ wf_ensemble w' N /\
    positions w' = Some ax' /\ velocities w' = Some av' /\
    forall i j xij vij fij mi,
      (j < 3)%nat ->
      nd_data ax !! (i * 3 + j)%nat = Some xij ->
      nd_data av !! (i * 3 + j)%nat = Some vij ->
      nd_data f !! (i * 3 + j)%nat = Some fij ->
      ms !! i = Some mi ->
      nd_data av' !! (i * 3 + j)%nat = Some (vij + dt / mi * fij) /\
      nd_data ax' !! (i * 3 + j)%nat =
        Some (xij + half * dt * vij + half * dt * (vij + dt / mi * fij)).
Proof.
  intros Hne Hwf Ex Ev Hf Hsf Hwff He Hp Hl Hms.
  destruct (wf_ensemble_data w N ax av Hwf Ex Ev) as (Hsx & Hsv & Lx & Lv).
  destruct (half_drift_ok w N dt ax av) as (E1 & Hwf1 & Px1 & Pv1); [done..|].
  pose proof Hwf as (_ & _ & _ & Hpp). destruct (Hpp _ _ Hp) as (Hlx & _ & _).
  set (w1 := half_drifted dt ax av w) in *.
  assert (length (nd_data f) = (N * 3)%nat) as Lf.
  { unfold nd_wf in Hwff. rewrite Hsf in Hwff. simpl in Hwff. lia. }
  set (dm := map (fun y => dt / y) ms).
  set (ex := map (fun k => default 0 (dm !! (k / 3)%nat)) (seq 0 (N * 3))).
  set (dk := zip_with Qcmult ex (nd_data f)).
  assert (length dk = (N * 3)%nat) as Lk.
  { unfold dk, ex. rewrite length_zip_with, length_map, length_seq. lia. }
  assert (kick_of dt (PyArray l) f w1 = (Ok (NdArray [N; 3%nat] dk), w1)) as Ek.
  { unfold kick_of.
    erewrite bind_ok
      by (apply load_ok; unfold w1; by rewrite half_drifted_lookup).
    erewrite bind_ok by (unfold lift, nd_rdiv; by rewrite decide_True).
    unfold lift, nd_mul. simpl. rewrite Hsf, broadcast_shapes_col. simpl.
    rewrite broadcast_to_col. simpl.
    rewrite <- Hsf at 1. rewrite broadcast_to_same by done. reflexivity. }
  set (dv' := zip_with Qcplus (nd_data av) dk).
  destruct (wf_store_v w1 N (NdArray [N; 3%nat] dv')) as (Hwf2 & Pv2 & Px2);
    [done | done | |].
  { unfold nd_wf, dv'. simpl. rewrite length_zip_with. lia. }
  set (w2 := set_heap (<[Ensemble.v (w_ens w1) := NdArray [N; 3%nat] dv']>
                         (w_heap w1)) w1) in *.
  assert (kick dt (PyArray l) f w1 = (Ok tt, w2)) as E3.
  { unfold kick. erewrite bind_ok by reflexivity.
    erewrite bind_ok by exact Ek.
    rewrite (iadd_at_ok w1 _ av); [by rewrite Hsv | exact Pv1 | by rewrite Hsv |].
    unfold nd_wf. simpl. lia. }
  rewrite Px1 in Px2.
  destruct (half_drift_ok w2 N dt _ _ Hwf2 Px2 Pv2) as (E4 & Hwf3 & Px3 & Pv3).
  eexists _, _, _. split_and!; [|exact Hwf3|exact Px3|exact Pv3|].
  - rewrite drift_kick_steps by done. unfold drift_kick_in_steps.
    erewrite bind_ok by exact E1. erewrite bind_ok by exact Hf.
    erewrite bind_ok by reflexivity.
    erewrite bind_ok.
    2: { unfold lift, spec_resolve_mass.
         change (w_ens w1) with (w_ens w). rewrite He, Hp. reflexivity. }
    erewrite bind_ok by exact E3. exact E4.
  - intros i j xij vij fij mi Hj Hx Hv Hfij Hm. simpl.
    assert (i * 3 + j < N * 3)%nat as Hk.
    { apply lookup_lt_Some in Hv. lia. }
    assert (((i * 3 + j) / 3)%nat = i) as Hdiv.
    { rewrite Nat.div_add_l by lia. rewrite Nat.div_small by lia. lia. }
    assert (dk !! (i * 3 + j)%nat = Some (dt / mi * fij)) as Hdk.
    { unfold dk. rewrite lookup_zip_with. unfold ex.
      rewrite list_lookup_fmap, (proj2 (lookup_seq 0 _ _ _)) by done.
      cbn [fmap option_fmap option_map Nat.add].
      rewrite Hdiv. unfold dm. rewrite list_lookup_fmap, Hm. cbn.
      by rewrite Hfij. }
    assert (dv' !! (i * 3 + j)%nat = Some (vij + dt / mi * fij)) as Hdv'.
    { unfold dv'. rewrite lookup_zip_with, Hv. simpl. by rewrite Hdk. }
    split; [done|].
    rewrite lookup_zip_with, lookup_zip_with, Hx. simpl.
    rewrite !list_lookup_fmap, Hv, Hdv'. done.
Qed.

Lemma drift_kick_particle_mass_column_witness :
  exists w' ax' av',
    drift_kick (qz 2) [uniform_force (map qz [1; 0; 0]%Z)] demo_world_pmass_col
      = (Ok tt, w') /\
    positions w' = Some ax' /\ velocities w' = Some av' /\
    nd_data av' !! 3%nat = Some (qz 0 + qz 2 / qz 4 * (0 + qz 1)).
Proof.
  destruct (drift_kick_particle_mass_column demo_world_pmass_col 2 (qz 2)
              [uniform_force (map qz [1; 0; 0]%Z)] demo_x demo_v
              (NdArray [2; 3]%nat
                 (zip_with Qcplus (replicate 6 0)
                           (concat (replicate 2 (map qz [1; 0; 0]%Z)))))
              2 (map qz [2; 4]%Z))
    as (w' & ax' & av' & E & _ & Px & Pv & H).
  - discriminate.
  - unfold wf_ensemble.
    split_and!; [done | by exists demo_x | by exists demo_v |].
    intros key l H. simpl in H. apply lookup_singleton_Some in H as [_ <-].
    split_and!; [done | done | by exists demo_mass_col].
  - reflexivity.
  - reflexivity.
  - reflexivity.
  - reflexivity.
  - reflexivity.
  - reflexivity.
  - reflexivity.
  - reflexivity.
  - repeat constructor; discriminate.
  - exists w', ax', av'. split_and!; [exact E | exact Px | exact Pv |].
    apply (H 1%nat 0%nat (qz 4) (qz 0) (0 + qz 1) (qz 4));
      [lia | reflexivity..].
Defined.

(** ** drift_kick: which mass the kick uses *)






(** ** SinkPlane.find_absorption_time *)

Lemma dotp_cons (a b : Qc) (n y : vec) :
  dotp (a :: n) (b :: y) = a * b + dotp n y.
Proof. reflexivity. Qed.

(** The plane's equation along a free flight. *)
Lemma dotp_flight (n : vec) :
  forall (xi vi p : vec) (t : Qc),
    length xi = length n -> length vi = length n -> length p = length n ->
    dotp n (zip_with Qcminus (zip_with Qcplus xi (map (Qcmult t) vi)) p)
    = t * dotp n vi - dotp n (zip_with Qcminus p xi).
Proof.
  induction n as [|a n IH]; intros [|x0 xi] [|v0 vi] [|p0 p] t Lx Lv Lp;
    simpl in Lx, Lv, Lp; try discriminate.
  - unfold dotp. simpl. ring.
  - cbn [zip_with map]. rewrite !dotp_cons, IH by lia. ring.
Qed.

Lemma on_plane_flight (self : SinkPlane.t) (xi vi : vec) (t : Qc) :
  length xi = length (SinkPlane.normal self) ->
  length vi = length (SinkPlane.normal self) ->
  length (SinkPlane.point self) = length (SinkPlane.normal self) ->
  on_plane self (zip_with Qcplus xi (map (Qcmult t) vi)) <->
  t * dotp (SinkPlane.normal self) vi
  = dotp (SinkPlane.normal self) (zip_with Qcminus (SinkPlane.point self) xi).
Proof.
  intros Lx Lv Lp. unfold on_plane. rewrite dotp_flight by done.
  set (nv := dotp _ vi). set (num := dotp _ (zip_with _ _ xi)).
  split; intros H.
  - transitivity (t * nv - num + num); [ring | rewrite H; ring].
  - rewrite H. ring.
Qed.

(** X17: on rows of the width of the plane's vectors, the entry that
    [SinkPlane.find_absorption_time] returns for a particle whose velocity
    is not parallel to the plane is the time at which its straight flight
    [x_i + t v_i] is on the plane, and the only such time (in exact
    arithmetic); for a velocity parallel to the plane the entry is
    [2 dt], and a particle that is not on the plane then never meets it. *)
Theorem sinkplane_time_meets_plane
    (self : SinkPlane.t) (x v : mat) (dt : Qc)
    (Hrows : length v = length x)
    (Hx : Forall (fun r => length r = length (SinkPlane.normal self)) x)
    (Hv : Forall (fun r => length r = length (SinkPlane.normal self)) v)
    (Hp : length (SinkPlane.point self) = length (SinkPlane.normal self)) :
  exists taus,
    SinkPlane.find_absorption_time self x v dt = Ok taus /\
    length taus = length x /\
    forall i xi vi,
      x !! i = Some xi -> v !! i = Some vi ->
      exists ti,
        taus !! i = Some ti /\
        (dotp (SinkPlane.normal self) vi <> 0 ->
         on_plane self (zip_with Qcplus xi (map (Qcmult ti) vi)) /\
         forall t, on_plane self (zip_with Qcplus xi (map (Qcmult t) vi)) ->
                   t = ti) /\
        (dotp (SinkPlane.normal self) vi = 0 ->
         ti = two * dt /\
         (~ on_plane self xi ->
          forall t,
            ~ on_plane self (zip_with Qcplus xi (map (Qcmult t) vi)))).
Proof.
  unfold SinkPlane.find_absorption_time.
  destruct (loop_ok self x v dt (length x) 0) as (taus & E & L & Hts);
    [simpl; lia.. | done | done | done |].
  exists taus. split; [done|]. split; [done|].
  intros i xi vi Exi Evi.
  assert (i < length x)%nat as Hi by (by eapply lookup_lt_Some).
  specialize (Hts i xi vi Exi Evi Hi).
  pose proof (Forall_lookup_1 _ _ _ _ Hx Exi) as Lx.
  pose proof (Forall_lookup_1 _ _ _ _ Hv Evi) as Lv. simpl in Lx, Lv.
  exists (tau_spec self xi vi dt). split; [done|]. unfold tau_spec.
  split; intros Hnv.
  - rewrite decide_False by done. split.
    + apply on_plane_flight; [done..|]. by field.
    + intros t Ht. apply on_plane_flight in Ht; [|done..].
      rewrite <- Ht. by field.
  - rewrite decide_True by done. split; [done|].
    intros Hoff t Ht. apply Hoff.
    apply on_plane_flight in Ht; [|done..]. rewrite Hnv in Ht.
    assert (zip_with Qcplus xi (map (Qcmult 0) vi) = xi) as E0.
    { clear -Lx Lv. revert vi Lv Lx.
      generalize (SinkPlane.normal self) as n.
      induction xi as [|a xi IH]; intros [|b n] [|c vi] Lv Lx;
        simpl in Lv, Lx; try discriminate; [done|].
      cbn [map zip_with]. f_equal; [ring|]. apply (IH n); lia. }
    rewrite <- E0. apply on_plane_flight; [done..|].
    rewrite Hnv, <- Ht. ring.
Qed.

Lemma sinkplane_time_meets_plane_witness :
  exists t0,
    SinkPlane.find_absorption_time
      (SinkPlane.mk [0; 0; Q2Qc 3] [0; 0; Q2Qc 2])
      [[Q2Qc 1; Q2Qc 1; Q2Qc 1]] [[0; 0; Q2Qc 4]] (Q2Qc 7) = Ok [t0] /\
    on_plane (SinkPlane.mk [0; 0; Q2Qc 3] [0; 0; Q2Qc 2])
      (zip_with Qcplus [Q2Qc 1; Q2Qc 1; Q2Qc 1]
                (map (Qcmult t0) [0; 0; Q2Qc 4])).
Proof.
  destruct (sinkplane_time_meets_plane
              (SinkPlane.mk [0; 0; Q2Qc 3] [0; 0; Q2Qc 2])
              [[Q2Qc 1; Q2Qc 1; Q2Qc 1]] [[0; 0; Q2Qc 4]] (Q2Qc 7))
    as (taus & E & L & H).
  - reflexivity.
  - repeat constructor.
  - repeat constructor.
  - reflexivity.
  - destruct (H 0%nat [Q2Qc 1; Q2Qc 1; Q2Qc 1] [0; 0; Q2Qc 4]
                eq_refl eq_refl) as (ti & Hti & Hmeet & _).
    exists ti. split.
    + rewrite E. f_equal.
      destruct taus as [|t1 [|? ?]]; try discriminate.
      simpl in Hti. by simplify_eq.
    + apply Hmeet. vm_compute. discriminate.
Defined.

Lemma dotp_scale (c : Qc) (n : vec) :
  forall y : vec, dotp (map (Qcmult c) n) y = c * dotp n y.
Proof.
  induction n as [|a n IH]; intros [|b y]; cbn [map];
    try (unfold dotp; simpl; ring).
  rewrite !dotp_cons, IH. ring.
Qed.

Lemma dot_scale (c : Qc) (n y : vec) :
  dot (map (Qcmult c) n) y = obind (dot n y) (fun d => Ok (c * d)).
Proof.
  unfold dot. rewrite length_map.
  destruct (decide (length n = length y)); simpl; [|done].
  by rewrite dotp_scale.
Qed.

Lemma tau_scale (c : Qc) (p n : vec) (x v : mat) (dt : Qc) (i : nat) :
  c <> 0 ->
  SinkPlane.tau (SinkPlane.mk p (map (Qcmult c) n)) x v dt i
  = SinkPlane.tau (SinkPlane.mk p n) x v dt i.
Proof.
  intros Hc. unfold SinkPlane.tau. cbn [SinkPlane.normal SinkPlane.point].
  destruct (getrow v i) as [vi|e]; simpl; [|done].
  rewrite dot_scale. destruct (dot n vi) as [nv|e]; simpl; [|done].
  destruct (decide (nv = 0)) as [->|Hnv].
  - rewrite decide_True by ring. done.
  - assert (c * nv <> 0) as Hcnv.
    { intros H. apply Qcmult_integral in H. by destruct H. }
    rewrite decide_False by done.
    destruct (getrow x i) as [xi|e]; simpl; [|done].
    destruct (vsub p xi) as [d|e]; simpl; [|done].
    rewrite dot_scale. destruct (dot n d) as [num|e]; simpl; [|done].
    unfold np_div. rewrite !decide_False by done.
    f_equal. by field.
Qed.

(** X18: the result of [SinkPlane.find_absorption_time] depends on the
    normal only through its direction: multiplying the normal by a factor
    that is not zero (negative ones included) changes neither the returned
    times nor the exception raised, on any input (in exact arithmetic). *)
Theorem sinkplane_normal_scale (c : Qc) (p n : vec) (x v : mat) (dt : Qc) :
  c <> 0 ->
  SinkPlane.find_absorption_time (SinkPlane.mk p (map (Qcmult c) n)) x v dt
  = SinkPlane.find_absorption_time (SinkPlane.mk p n) x v dt.
Proof.
  intros Hc. unfold SinkPlane.find_absorption_time.
  generalize (length x) as k. generalize 0%nat as i.
  intros i k. revert i.
  induction k as [|k IH]; intros i; simpl; [done|].
  by rewrite tau_scale, IH.
Qed.

Lemma sinkplane_normal_scale_witness :
  SinkPlane.find_absorption_time
    (SinkPlane.mk [0; 0; Q2Qc 3] (map (Qcmult (Q2Qc (-5))) [0; 0; Q2Qc 2]))
    [[Q2Qc 1; Q2Qc 1; Q2Qc 1]; [0; 0; 0]]
    [[0; 0; Q2Qc 4]; [Q2Qc 5; 0; 0]] (Q2Qc 7)
  = SinkPlane.find_absorption_time
      (SinkPlane.mk [0; 0; Q2Qc 3] [0; 0; Q2Qc 2])
      [[Q2Qc 1; Q2Qc 1; Q2Qc 1]; [0; 0; 0]]
      [[0; 0; Q2Qc 4]; [Q2Qc 5; 0; 0]] (Q2Qc 7).
Proof.
  apply (sinkplane_normal_scale (Q2Qc (-5))). vm_compute. discriminate.
Defined.

(** The loop stops at the first index whose body raises. *)
Lemma loop_raise (self : SinkPlane.t) (x v : mat) (dt : Qc) (e : exn)
    (n i0 i : nat) :
  (i0 <= i < i0 + n)%nat ->
  (forall k, (i0 <= k < i)%nat ->
             exists t0, SinkPlane.tau self x v dt k = Ok t0) ->
  SinkPlane.tau self x v dt i = Raise e ->
  SinkPlane.loop self x v dt i0 n = Raise e.
Proof.
  revert i0. induction n as [|n IH]; intros i0 Hi Hpre He; [lia|].
  simpl. destruct (decide (i0 = i)) as [->|Hne].
  - by rewrite He.
  - destruct (Hpre i0) as [t0 ->]; [lia|]. simpl.
    rewrite (IH (S i0)); [done | lia | | done].
    intros k Hk. apply Hpre. lia.
Qed.

(** X19: the loop of [SinkPlane.find_absorption_time] runs over the rows
    of [x]: when [v] has fewer rows than [x] (all rows of the width of the
    plane's vectors), the call raises [IndexError] at [v[i]] for the first
    missing row, and returns nothing. *)
Theorem sinkplane_missing_velocity_row
    (self : SinkPlane.t) (x v : mat) (dt : Qc) :
  (length v < length x)%nat ->
  Forall (fun r => length r = length (SinkPlane.normal self)) x ->
  Forall (fun r => length r = length (SinkPlane.normal self)) v ->
  length (SinkPlane.point self) = length (SinkPlane.normal self) ->
  SinkPlane.find_absorption_time self x v dt = Raise IndexError.
Proof.
  intros Hlen Hx Hv Hp. unfold SinkPlane.find_absorption_time.
  apply (loop_raise self x v dt IndexError (length x) 0 (length v)); [lia| |].
  - intros k Hk.
    destruct (lookup_lt_is_Some_2 x k) as [xk Exk]; [lia|].
    destruct (lookup_lt_is_Some_2 v k) as [vk Evk]; [lia|].
    pose proof (Forall_lookup_1 _ _ _ _ Hx Exk) as Lx.
    pose proof (Forall_lookup_1 _ _ _ _ Hv Evk) as Lv. simpl in Lx, Lv.
    eexists. by apply (tau_ok self x v dt k xk vk).
  - unfold SinkPlane.tau, getrow. by rewrite lookup_ge_None_2.
Qed.

Lemma sinkplane_missing_velocity_row_witness :
  SinkPlane.find_absorption_time
    (SinkPlane.mk [0; 0; Q2Qc 3] [0; 0; Q2Qc 2])
    [[Q2Qc 1; Q2Qc 1; Q2Qc 1]; [0; 0; 0]] [[0; 0; Q2Qc 4]] (Q2Qc 7)
  = Raise IndexError.
Proof.
  apply sinkplane_missing_velocity_row.
  - simpl. lia.
  - repeat constructor.
  - repeat constructor.
  - reflexivity.
Defined.

(** X20: a row of [v] whose width differs from that of the plane's normal
    makes [SinkPlane.find_absorption_time] raise [ValueError] at
    [normal.dot(v[i])], when the rows before it are of the right width;
    the row [x[i]] is not looked at. *)
Theorem sinkplane_velocity_row_width
    (self : SinkPlane.t) (x v : mat) (dt : Qc) (i : nat) (vi : vec) :
  (i < length x)%nat ->
  v !! i = Some vi ->
  length vi <> length (SinkPlane.normal self) ->
  Forall (fun r => length r = length (SinkPlane.normal self)) (take i x) ->
  Forall (fun r => length r = length (SinkPlane.normal self)) (take i v) ->
  length (SinkPlane.point self) = length (SinkPlane.normal self) ->
  SinkPlane.find_absorption_time self x v dt = Raise ValueError.
Proof.
  intros Hi Evi Lvi Hx Hv Hp. unfold SinkPlane.find_absorption_time.
  pose proof (lookup_lt_Some _ _ _ Evi) as Hiv.
  apply (loop_raise self x v dt ValueError (length x) 0 i); [lia| |].
  - intros k Hk.
    destruct (lookup_lt_is_Some_2 x k) as [xk Exk]; [lia|].
    destruct (lookup_lt_is_Some_2 v k) as [vk Evk]; [lia|].
    assert (take i x !! k = Some xk) as Exk'
      by (rewrite lookup_take_lt by lia; done).
    assert (take i v !! k = Some vk) as Evk'
      by (rewrite lookup_take_lt by lia; done).
    pose proof (Forall_lookup_1 _ _ _ _ Hx Exk') as Lx.
    pose proof (Forall_lookup_1 _ _ _ _ Hv Evk') as Lv. simpl in Lx, Lv.
    eexists. by apply (tau_ok self x v dt k xk vk).
  - unfold SinkPlane.tau, getrow. rewrite Evi. simpl.
    unfold dot. rewrite decide_False by congruence. done.
Qed.

Lemma sinkplane_velocity_row_width_witness :
  SinkPlane.find_absorption_time
    (SinkPlane.mk [0; 0; Q2Qc 3] [0; 0; Q2Qc 2])
    [[Q2Qc 1; Q2Qc 1; Q2Qc 1]; [0; 0; 0]]
    [[0; 0; Q2Qc 4]; [Q2Qc 5; 0]] (Q2Qc 7)
  = Raise ValueError.
Proof.
  apply (sinkplane_velocity_row_width _ _ _ _ 1%nat [Q2Qc 5; 0]).
  - simpl. lia.
  - reflexivity.
  - simpl. lia.
  - repeat constructor.
  - repeat constructor.
  - reflexivity.
Defined.

(** ** drift_kick with a force that raises *)

Lemma accumulate_raise {U} (w1 w' : world U) (N : nat) (e : exn)
    (bad : force U) (rest : list (force U)) :
  bad w1 = (Raise e, w') ->
  forall (pre : list (force U)) (f0 : ndarray),
    nd_shape f0 = [N; 3%nat] ->
    Forall (fun fo : force U =>
              exists r, fo w1 = (Ok r, w1) /\
                        nd_shape r = [N; 3%nat] /\ nd_wf r) pre ->
    accumulate f0 (pre ++ bad :: rest) w1 = (Raise e, w').
Proof.
  intros Hbad pre. induction pre as [|fo pre IH]; intros f0 Hs Hpre; simpl.
  - by apply bind_raise.
  - inversion Hpre as [|? ? (r & Er & Hsr & Hwr) Hpre']; subst.
    erewrite bind_ok by exact Er.
    erewrite bind_ok
      by (unfold lift; rewrite nd_iadd_same_shape by congruence; reflexivity).
    by apply IH.
Qed.

(** X21: an exception raised by a force leaves [drift_kick] as it is and
    in the state the force left: when the forces before it return arrays
    of shape [(N, 3)] and change nothing, the call raises the force's
    exception with the positions already half-drifted; the forces after
    it are not called, the mass is not looked up (so a missing or zero
    mass goes unnoticed) and the velocities are not touched by
    [drift_kick]. *)
Theorem drift_kick_force_raises {U} (w w' : world U) (N : nat) (dt : Qc)
    (pre : list (force U)) (bad : force U) (rest : list (force U))
    (ax av : ndarray) (e : exn) :
  wf_ensemble w N ->
  positions w = Some ax -> velocities w = Some av ->
  Forall (fun fo : force U =>
            exists r, fo (half_drifted dt ax av w)
                      = (Ok r, half_drifted dt ax av w) /\
                      nd_shape r = [N; 3%nat] /\ nd_wf r) pre ->
  bad (half_drifted dt ax av w) = (Raise e, w') ->
  drift_kick dt (pre ++ bad :: rest) w = (Raise e, w').
Proof.
  intros Hwf Ex Ev Hpre Hbad.
  destruct (wf_ensemble_data w N ax av Hwf Ex Ev) as (_ & Hsv & _ & _).
  destruct (half_drift_ok w N dt ax av) as (E1 & _ & _ & Pv1); [done..|].
  rewrite drift_kick_steps by (by destruct pre). unfold drift_kick_in_steps.
  erewrite bind_ok by exact E1.
  apply bind_raise. unfold total_force.
  erewrite bind_ok by reflexivity.
  erewrite bind_ok by (apply load_ok, Pv1).
  by apply (accumulate_raise _ _ N).
Qed.

Lemma drift_kick_force_raises_witness :
  drift_kick (qz 2)
    ([uniform_force (map qz [1; 0; 0]%Z)]
       ++ raise ValueError :: [uniform_force (map qz [0; 1; 0]%Z)])
    demo_world_p
  = (Raise ValueError, half_drifted (qz 2) demo_x demo_v demo_world_p).
Proof.
  apply (drift_kick_force_raises demo_world_p _ 2 (qz 2) _ _ _ demo_x demo_v).
  - exact demo_world_p_wf.
  - reflexivity.
  - reflexivity.
  - constructor; [|constructor].
    eexists. split; [|split].
    + apply (uniform_force_ok _ 2).
      by destruct (half_drift_ok demo_world_p 2 (qz 2) demo_x demo_v
                     demo_world_p_wf eq_refl eq_refl) as (_ & H & _).
    + reflexivity.
    + reflexivity.
  - reflexivity.
Defined.
